(** * Clever Cloud invoicing simulator: selection state and catalog service

    A shallow embedding of the two JavaScript modules of the repository:

    - [InvoicingSimulator] (a React component): the selected product
      instance, the cart of selected flavors, and the views derived from
      them;
    - [ProductInstancesService]: the catalog fetch, the conversion of the
      raw records and the optional preloading of the logos.

    JavaScript objects are compared by reference ([===], [!==],
    [Array.prototype.includes]), and a flavor points back to the instance
    that owns it, so objects live in a heap and the program manipulates
    references.  JavaScript numbers are IEEE 754 binary64 values: they are
    the kernel's primitive floats. *)

From Stdlib Require Import ZArith NArith String Ascii List Floats.
From Stdlib Require Import Sorted Permutation Lia DecimalString DecimalN.
From stdpp Require Import base option list gmap strings.

Set Warnings "-inexact-float".
Set Default Proof Using "Type".

(** ** JavaScript values used by the program *)

(** A JavaScript [number]. *)
Definition number : Set := float.

(** An object reference; [===] on objects is equality of references. *)
Definition ref := positive.

(** ** [Array.prototype.sort]

    [arr.sort(compareFn)] sorts [arr] in place and returns it.  The sort is
    stable, and for a consistent comparator its result is the one sorted
    arrangement that keeps equal elements in their original order; stable
    insertion computes it.  A comparator answers with a negative number, zero
    or a positive number: [Lt], [Eq], [Gt]. *)

Section ArraySort.
Context {A : Type} (compareFn : A -> A -> comparison).

Fixpoint sort_insert (x : A) (l : list A) : list A :=
  match l with
  | [] => [x]
  | y :: l' =>
      match compareFn x y with
      | Gt => y :: sort_insert x l'
      | _ => x :: y :: l'
      end
  end.

Fixpoint Array_sort (l : list A) : list A :=
  match l with
  | [] => []
  | x :: l' => sort_insert x (Array_sort l')
  end.

(** [a] may stand before [b]. *)
Definition in_order (a b : A) : Prop := compareFn a b <> Gt.

End ArraySort.

(** ** The data model (the JSDoc typedefs of the service module)

    Instances and flavors are objects: a flavor holds a reference to its
    instance, an instance holds the array of the references of its flavors
    ([undefined] when the raw record had none). *)

Module ProductInstanceModel.
Record t : Type := mk {
  id : string;
  name : string;
  description : string;
  logo : string;
  enabled : bool;
  comingSoon : bool;
  flavors : option (list ref)
}.
#[global] Instance inhabited : Inhabited t :=
  populate (mk EmptyString EmptyString EmptyString EmptyString
               false false None).
End ProductInstanceModel.

Module ProductFlavorModel.
Record t : Type := mk {
  instance : ref;
  name : string;
  price : number;
  mem : number;
  memFormatted : string;
  cpus : number;
  gpus : number;
  available : bool;
  microservice : bool;
  machineLearning : bool
}.
#[global] Instance inhabited : Inhabited t :=
  populate (mk 1%positive EmptyString 0%float 0%float EmptyString
               0%float 0%float false false false).
End ProductFlavorModel.

(** The heap: the instance objects, the flavor objects, and the arrays that
    are shared between the component and its caller. *)
Record Heap : Type := mkHeap {
  instanceObjs : gmap ref ProductInstanceModel.t;
  flavorObjs : gmap ref ProductFlavorModel.t;
  arrayObjs : gmap ref (list ref)
}.

Definition emptyHeap : Heap := mkHeap ∅ ∅ ∅.

(** A heap extends another one when it holds the same objects, and
    possibly new ones, and the same arrays. *)
Definition heap_extends (h h' : Heap) : Prop :=
  instanceObjs h ⊆ instanceObjs h' /\
  flavorObjs h ⊆ flavorObjs h' /\
  arrayObjs h' = arrayObjs h.

(** Reading through a reference.  The references a program holds always
    point to allocated objects; elsewhere the lookup answers with an
    arbitrary object. *)
Definition instanceAt (h : Heap) (r : ref) : ProductInstanceModel.t :=
  instanceObjs h !!! r.
Definition flavorAt (h : Heap) (r : ref) : ProductFlavorModel.t :=
  flavorObjs h !!! r.
Definition arrayAt (h : Heap) (r : ref) : list ref :=
  arrayObjs h !!! r.

(** [flavor.instance.id], [flavor.name], [flavor.price] *)
Definition flavorInstanceId (h : Heap) (f : ref) : string :=
  ProductInstanceModel.id
    (instanceAt h (ProductFlavorModel.instance (flavorAt h f))).
Definition flavorName (h : Heap) (f : ref) : string :=
  ProductFlavorModel.name (flavorAt h f).
Definition flavorPrice (h : Heap) (f : ref) : number :=
  ProductFlavorModel.price (flavorAt h f).

(** The identity of a flavor in the data model: the identifier of the
    owning instance and the name of the flavor. *)
Definition flavorIdentity (h : Heap) (f : ref) : string * string :=
  (flavorInstanceId h f, flavorName h f).

(** ** The comparators *)

Module productInstanceComparators.

(** Lexicographic combination: the second answer breaks a tie of the
    first. *)
Definition tie_break (c1 c2 : comparison) : comparison :=
  match c1 with Eq => c2 | _ => c1 end.

(** Ascending numbers; two numbers neither of which is lower than the
    other tie. *)
Definition compareNumbers (a b : number) : comparison :=
  if (a <? b)%float then Lt else if (b <? a)%float then Gt else Eq.

(** Modelled from the spec: [productInstanceComparator] of the module
    productInstance/productInstanceComparators, which the component
    imports and which is not among the sources.  "Total order over
    ProductInstance by display name, case-sensitive lexicographic, ties
    broken by identifier." *)
Definition productInstanceComparator (h : Heap) (a b : ref) : comparison :=
  tie_break
    (String.compare (ProductInstanceModel.name (instanceAt h a))
                    (ProductInstanceModel.name (instanceAt h b)))
    (String.compare (ProductInstanceModel.id (instanceAt h a))
                    (ProductInstanceModel.id (instanceAt h b))).

(** Modelled from the spec: [productFlavorComparator] of the same module,
    not among the sources either.  "Total order over ProductFlavor
    primarily by price ascending, ties broken by name lexicographic, then
    by owning-instance identifier." *)
Definition productFlavorComparator (h : Heap) (a b : ref) : comparison :=
  tie_break
    (compareNumbers (flavorPrice h a) (flavorPrice h b))
    (tie_break
       (String.compare (flavorName h a) (flavorName h b))
       (String.compare (flavorInstanceId h a) (flavorInstanceId h b))).

End productInstanceComparators.

(** The canonical order of the flavors, spelled out: a flavor may stand
    before another when its price is lower, or when neither price is
    lower than the other and its name comes first, or when the names are
    equal too and the identifier of its instance does not come after. *)
Definition flavor_precedes (h : Heap) (a b : ref) : Prop :=
  (flavorPrice h a <? flavorPrice h b)%float = true \/
  ((flavorPrice h b <? flavorPrice h a)%float = false /\
   (String.compare (flavorName h a) (flavorName h b) = Lt \/
    (flavorName h a = flavorName h b /\
     String.compare (flavorInstanceId h a) (flavorInstanceId h b) <> Gt))).

(** ** The component [InvoicingSimulator] *)

Module InvoicingSimulator.

(** [this.state]: the selected product instance ([null] at first) and the
    flavors the user added to the cart. *)
Record State : Type := mkState {
  selectedProductInstance : option ref;
  selectedFlavors : list ref
}.

Definition state : State := mkState None [].

(** [this.setState(partial)] merges the fields that [partial] holds into
    the state and keeps the others. *)
Record StateUpdate : Type := mkUpdate {
  newSelectedProductInstance : option (option ref);
  newSelectedFlavors : option (list ref)
}.

Definition setState (partial : StateUpdate) (st : State) : State :=
  mkState
    (default (selectedProductInstance st) (newSelectedProductInstance partial))
    (default (selectedFlavors st) (newSelectedFlavors partial)).

(** [this.props]: the catalog, an array owned by the caller. *)
Record Props : Type := mkProps {
  productInstances : ref
}.

(** What a [<List>] element receives. *)
Record ListElement : Type := mkList {
  className : string;
  items : list ref
}.

(** What [render] draws: the total of the header and the three lists. *)
Record View : Type := mkView {
  header : number;
  productInstancesList : ListElement;
  productFlavorsList : ListElement;
  selectedFlavorsList : ListElement
}.

Section Component.

(** The two comparators the component imports. *)
Variable productFlavorComparator : Heap -> ref -> ref -> comparison.
Variable productInstanceComparator : Heap -> ref -> ref -> comparison.

(** *** State modifiers *)

Definition setSelectedProductInstance (productInstance : ref) (st : State)
  : State :=
  setState (mkUpdate (Some (Some productInstance)) None) st.

(** The array given to [setSelectedFlavors] is always a fresh one (a
    spread or the result of [filter]), so the in-place [sort] changes no
    array that something else holds. *)
Definition setSelectedFlavors (h : Heap) (selectedFlavors : list ref)
    (st : State) : State :=
  setState
    (mkUpdate None
       (Some (Array_sort (productFlavorComparator h) selectedFlavors)))
    st.

(** *** Product instances list *)

Definition productInstanceItemId (h : Heap) (productInstance : ref) : string :=
  ProductInstanceModel.id (instanceAt h productInstance).

Definition onSelectProductInstance (productInstance : ref) (st : State)
  : State :=
  setState (mkUpdate (Some (Some productInstance)) None) st.

(** [this.props.productInstances.sort(...)] sorts the array of the caller
    in place; the list element receives that same array. *)
Definition renderProductInstances (h : Heap) (props : Props)
  : Heap * ListElement :=
  let sorted :=
    Array_sort (productInstanceComparator h)
               (arrayAt h (productInstances props)) in
  (mkHeap (instanceObjs h) (flavorObjs h)
          (<[productInstances props := sorted]> (arrayObjs h)),
   mkList "tp-invoicing-simulator-list tp-product-instances" sorted).

(** *** Product flavors list *)

Definition productFlavorItemId (h : Heap) (productFlavor : ref) : string :=
  flavorInstanceId h productFlavor +:+ "/" +:+ flavorName h productFlavor.

Definition onSelectProductFlavor (h : Heap) (productFlavor : ref)
    (st : State) : State :=
  setSelectedFlavors h (selectedFlavors st ++ [productFlavor]) st.

(** [this.state.selectedProductInstance?.flavors ?? []] *)
Definition selectedInstanceFlavors (h : Heap) (st : State) : list ref :=
  default []
    (selectedProductInstance st ≫=
       fun productInstance =>
         ProductInstanceModel.flavors (instanceAt h productInstance)).

Definition renderProductFlavors (h : Heap) (st : State) : ListElement :=
  let selectableFlavors :=
    Array_sort (productFlavorComparator h)
      (filter (fun f => f ∉ selectedFlavors st)
              (selectedInstanceFlavors h st)) in
  mkList "tp-invoicing-simulator-list tp-product-flavors" selectableFlavors.

(** *** Selected product flavors *)

Definition onUnselectProductFlavor (h : Heap) (productFlavor : ref)
    (st : State) : State :=
  setSelectedFlavors h
    (filter (fun f => f ≠ productFlavor) (selectedFlavors st)) st.

Definition renderSelectedFlavors (st : State) : ListElement :=
  mkList "tp-invoicing-simulator-list tp-selected-flavors"
         (selectedFlavors st).

(** *** Header *)

(** [selectedFlavors.map(f => f.price).reduce((a, b) => a + b, 0)] *)
Definition totalPrice (h : Heap) (st : State) : number :=
  fold_left (fun a b => (a + b)%float)
            (map (flavorPrice h) (selectedFlavors st))
            0%float.

Definition renderHeader (h : Heap) (st : State) : number :=
  totalPrice h st.

(** *** Main renderer *)

Definition render (h : Heap) (props : Props) (st : State) : Heap * View :=
  let hd := renderHeader h st in
  let '(h1, instances) := renderProductInstances h props in
  let flavors := renderProductFlavors h1 st in
  let selected := renderSelectedFlavors st in
  (h1, mkView hd instances flavors selected).

(** *** The user's interactions

    Each button is bound to one handler: a catalog entry to
    [onSelectProductInstance], a selectable flavor to
    [onSelectProductFlavor], a selected flavor to
    [onUnselectProductFlavor]. *)
Inductive Interaction : Type :=
| selectInstance (productInstance : ref)
| addFlavor (productFlavor : ref)
| removeFlavor (productFlavor : ref).

Definition handle (h : Heap) (i : Interaction) (st : State) : State :=
  match i with
  | selectInstance productInstance => onSelectProductInstance productInstance st
  | addFlavor productFlavor => onSelectProductFlavor h productFlavor st
  | removeFlavor productFlavor => onUnselectProductFlavor h productFlavor st
  end.

(** The states the component goes through, from the initial one. *)
Inductive reachable (h : Heap) : State -> Prop :=
| reachable_initial : reachable h state
| reachable_handle i st : reachable h st -> reachable h (handle h i st).

Definition run (h : Heap) (clicks : list Interaction) : State :=
  fold_left (fun st i => handle h i st) clicks state.

End Component.
End InvoicingSimulator.

(** ** The service [ProductInstancesService] *)

(** *** Promises, exceptions and the browser *)

(** The values the service throws or rejects with. *)
Inductive Thrown : Type :=
| Error (message : string)          (* [new Error(message)] *)
| TypeError (message : string)      (* raised by the engine or by [fetch] *)
| SyntaxError (message : string)    (* raised by [response.json()] *)
| ImageErrorEvent (src : string).   (* the event [image.onerror] receives *)

(** [e.message] *)
Definition message_of (e : Thrown) : string :=
  match e with
  | Error m | TypeError m | SyntaxError m => m
  | ImageErrorEvent _ => "undefined"
  end.

(** What awaiting a promise gives: its value, an exception, or nothing
    as long as the promise stays pending. *)
Inductive Promise (A : Type) : Type :=
| Fulfilled (value : A)
| Rejected (reason : Thrown)
| Pending.
Arguments Fulfilled {A} value.
Arguments Rejected {A} reason.
Arguments Pending {A}.

(** A promise together with the instant at which it settles; the order of
    the instants is the order in which the browser delivers the events. *)
Inductive Settling (A : Type) : Type :=
| fulfils (at_ : nat) (value : A)
| rejects (at_ : nat) (reason : Thrown)
| never.
Arguments fulfils {A} at_ value.
Arguments rejects {A} at_ reason.
Arguments never {A}.

(** [Promise.all(promises)]: rejected with the reason of the promise that
    rejects first, whatever the others do; fulfilled with all the values
    when every promise is fulfilled; pending otherwise. *)
Fixpoint first_rejection {A : Type} (promises : list (Settling A))
  : option (nat * Thrown) :=
  match promises with
  | [] => None
  | p :: promises' =>
      match p, first_rejection promises' with
      | rejects t e, Some (t', e') =>
          if (t <=? t')%nat then Some (t, e) else Some (t', e')
      | rejects t e, None => Some (t, e)
      | _, later => later
      end
  end.

Fixpoint all_values {A : Type} (promises : list (Settling A))
  : option (list A) :=
  match promises with
  | [] => Some []
  | fulfils _ v :: promises' => cons v <$> all_values promises'
  | _ :: _ => None
  end.

Definition Promise_all {A : Type} (promises : list (Settling A))
  : Promise (list A) :=
  match first_rejection promises with
  | Some (_, e) => Rejected e
  | None =>
      match all_values promises with
      | Some values => Fulfilled values
      | None => Pending
      end
  end.

(** *** The raw records of the API *)

Module RawVariant.
Record t : Type := mk { id : string; name : string; logo : string }.
End RawVariant.

Module RawMemory.
Record t : Type := mk { formatted : string }.
End RawMemory.

Module RawProductFlavor.
Record t : Type := mk {
  name : string;
  price : number;
  mem : number;
  memory : RawMemory.t;
  cpus : number;
  gpus : number;
  available : bool;
  microservice : bool;
  machine_learning : bool
}.
End RawProductFlavor.

Module RawProductInstance.
Record t : Type := mk {
  variant : RawVariant.t;
  description : string;
  enabled : bool;
  comingSoon : bool;
  flavors : option (list RawProductFlavor.t)
}.
End RawProductInstance.

(** What [response.json()] can resolve to.  Arrays hold raw records with
    the fields the converter reads. *)
Inductive Json : Type :=
| JNull
| JBool (b : bool)
| JNumber (n : number)
| JString (s : string)
| JArray (elements : list RawProductInstance.t)
| JObject.

(** Truthiness, as [||] tests it. *)
Definition truthy (v : Json) : bool :=
  match v with
  | JNull => false
  | JBool b => b
  | JNumber n => negb (n =? 0)%float && negb (PrimFloat.is_nan n)
  | JString s => negb (String.eqb s EmptyString)
  | JArray _ | JObject => true
  end.

(** The part of a [Response] the service reads. *)
Record Response : Type := mkResponse {
  ok : bool;
  status : N;
  json : Promise Json
}.

(** An image either loads, fails to load, or does neither. *)
Inductive ImageEvent : Type :=
| onload (at_ : nat)
| onerror (at_ : nat)
| noevent.

(** The browser: what [fetch(url)] settles to, and what happens to the
    [n]-th image element once its [src] is set. *)
Record Browser : Type := mkBrowser {
  fetch : string -> Promise Response;
  Image : nat -> string -> ImageEvent
}.

(** [`${n}`] for an integer [n]. *)
Definition toString (n : N) : string := NilEmpty.string_of_uint (N.to_uint n).

(** *** Computations that allocate objects and await promises *)

(** A computation reads and extends the heap and ends like a promise. *)
Definition Async (A : Type) : Type := Heap -> Promise A * Heap.

Definition async_return {A : Type} (a : A) : Async A :=
  fun h => (Fulfilled a, h).

Definition async_throw {A : Type} (e : Thrown) : Async A :=
  fun h => (Rejected e, h).

(** [await p; k]: an exception or a promise that stays pending ends the
    computation there. *)
Definition async_bind {A B : Type} (m : Async A) (k : A -> Async B)
  : Async B :=
  fun h =>
    match m h with
    | (Fulfilled a, h') => k a h'
    | (Rejected e, h') => (Rejected e, h')
    | (Pending, h') => (Pending, h')
    end.

Definition await {A : Type} (p : Promise A) : Async A := fun h => (p, h).

(** [try { m } catch (e) { handler(e) }] *)
Definition try_catch {A : Type} (m : Async A) (handler : Thrown -> Async A)
  : Async A :=
  fun h =>
    match m h with
    | (Rejected e, h') => handler e h'
    | settled => settled
    end.

Declare Scope async_scope.
Delimit Scope async_scope with async.
Notation "x <- m ;; k" := (async_bind m (fun x => k))
  (at level 100, m at next level, right associativity) : async_scope.

(** Allocation of a new object. *)
Definition new_instance (o : ProductInstanceModel.t) : Async ref :=
  fun h =>
    let r := fresh (dom (instanceObjs h)) in
    (Fulfilled r,
     mkHeap (<[r := o]> (instanceObjs h)) (flavorObjs h) (arrayObjs h)).

Definition new_flavor (o : ProductFlavorModel.t) : Async ref :=
  fun h =>
    let r := fresh (dom (flavorObjs h)) in
    (Fulfilled r,
     mkHeap (instanceObjs h) (<[r := o]> (flavorObjs h)) (arrayObjs h)).

(** [productInstance.flavors = value] *)
Definition set_flavors (productInstance : ref) (value : option (list ref))
  : Async unit :=
  fun h =>
    let o := instanceAt h productInstance in
    let o' :=
      ProductInstanceModel.mk
        (ProductInstanceModel.id o) (ProductInstanceModel.name o)
        (ProductInstanceModel.description o) (ProductInstanceModel.logo o)
        (ProductInstanceModel.enabled o) (ProductInstanceModel.comingSoon o)
        value in
    (Fulfilled tt,
     mkHeap (<[productInstance := o']> (instanceObjs h))
            (flavorObjs h) (arrayObjs h)).

(** [array.map(f)] for an [f] that allocates. *)
Fixpoint Array_map {A B : Type} (f : A -> Async B) (l : list A)
  : Async (list B) :=
  match l with
  | [] => async_return []
  | x :: l' =>
      (y <- f x ;; ys <- Array_map f l' ;; async_return (y :: ys))%async
  end.

Module ProductInstancesService.

Definition endpoint : string :=
  "https://api.clever-cloud.com/v2/products/instances".

(** The message of the error thrown for a response that is not [ok]. *)
Definition responseErrorMessage (status : N) : string :=
  "We could not fetch product instances. Server responded with error "
  +:+ toString status +:+ ". Please retry later.".

Definition _fetchProductInstances (browser : Browser) : Async Json :=
  (response <-
     try_catch (await (fetch browser endpoint))
       (fun e =>
          async_throw
            (Error ("We could not fetch product instances. "
                    +:+ message_of e +:+ " Please retry later."))) ;;
   if negb (ok response)
   then async_throw (Error (responseErrorMessage (status response)))
   else
     (body <- await (json response) ;;
      async_return (if truthy body then body else JArray []))
  )%async.

(** The arrow function that [_productInstanceConverter] maps over the raw
    flavors: the flavor object of a raw flavor, for the instance that owns
    it. *)
Definition _productFlavorConverter (productInstance : ref)
    (rawProductFlavor : RawProductFlavor.t) : ProductFlavorModel.t :=
  ProductFlavorModel.mk
    productInstance
    (RawProductFlavor.name rawProductFlavor)
    (RawProductFlavor.price rawProductFlavor * 41.904)%float
    (RawProductFlavor.mem rawProductFlavor)
    (RawMemory.formatted (RawProductFlavor.memory rawProductFlavor))
    (RawProductFlavor.cpus rawProductFlavor)
    (RawProductFlavor.gpus rawProductFlavor)
    (RawProductFlavor.available rawProductFlavor)
    (RawProductFlavor.microservice rawProductFlavor)
    (RawProductFlavor.machine_learning rawProductFlavor).

(** The instance object is created first, with an empty array of flavors;
    the flavor objects are created with a reference to it; the array of
    their references is then stored in the instance ([undefined] when the
    raw record has no [flavors]). *)
Definition _productInstanceConverter
    (rawProductInstance : RawProductInstance.t) : Async ref :=
  (productInstance <-
     new_instance
       (ProductInstanceModel.mk
          (RawVariant.id (RawProductInstance.variant rawProductInstance))
          (RawVariant.name (RawProductInstance.variant rawProductInstance))
          (RawProductInstance.description rawProductInstance)
          (RawVariant.logo (RawProductInstance.variant rawProductInstance))
          (RawProductInstance.enabled rawProductInstance)
          (RawProductInstance.comingSoon rawProductInstance)
          (Some [])) ;;
   flavors <-
     match RawProductInstance.flavors rawProductInstance with
     | None => async_return None
     | Some rawFlavors =>
         (refs <-
            Array_map
              (fun rawProductFlavor =>
                 new_flavor
                   (_productFlavorConverter productInstance rawProductFlavor))
              rawFlavors ;;
          async_return (Some refs))
     end ;;
   _ <- set_flavors productInstance flavors ;;
   async_return productInstance)%async.

(** The promise of the [n]-th image element created, for the given URL. *)
Definition _preloadImage (browser : Browser) (n : nat) (imageUrl : string)
  : Settling unit :=
  match Image browser n imageUrl with
  | onload t => fulfils t tt
  | onerror t => rejects t (ImageErrorEvent imageUrl)
  | noevent => never
  end.

(** [json.map(...)] of a value that is no array *)
Definition map_is_not_a_function : Thrown :=
  TypeError "map is not a function".

Definition getProductInstances (browser : Browser)
    (preloadProductLogos : bool) : Async (list ref) :=
  (fetched <- _fetchProductInstances browser ;;
   result <-
     match fetched with
     | JArray raws => Array_map _productInstanceConverter raws
     | _ => async_throw map_is_not_a_function
     end ;;
   _ <-
     (if preloadProductLogos
      then
        fun h =>
          (Promise_all
             (imap
                (fun n r =>
                   _preloadImage browser n
                     (ProductInstanceModel.logo (instanceAt h r)))
                result),
           h)
      else async_return []) ;;
   async_return result)%async.

End ProductInstancesService.

(** An instance object converted from a raw record: it carries the logo
    of the record. *)
Definition converted_from (raw : RawProductInstance.t) (r : ref) (h : Heap)
  : Prop :=
  exists o,
    instanceObjs h !! r = Some o /\
    ProductInstanceModel.logo o
    = RawVariant.logo (RawProductInstance.variant raw).

(** ** A sample catalog

    Three raw records as the API serves them, the browser that answers the
    fetch with them, and the heap the conversion builds from them. *)

Module Sample.
Import ProductInstancesService.

Definition rawFlavor (name : string) (price : number) : RawProductFlavor.t :=
  RawProductFlavor.mk name price 1024%float (RawMemory.mk "1 GiB")
                      1%float 0%float true false false.

Definition node : RawProductInstance.t :=
  RawProductInstance.mk (RawVariant.mk "node" "Node" "node.svg")
    "Node.js" true false
    (Some [rawFlavor "M" 20%float; rawFlavor "S" 10%float]).

Definition php : RawProductInstance.t :=
  RawProductInstance.mk (RawVariant.mk "php" "PHP" "php.svg")
    "PHP" true false None.

Definition go : RawProductInstance.t :=
  RawProductInstance.mk (RawVariant.mk "go" "Go" "go.svg")
    "Go" true false (Some [rawFlavor "XS" 5%float]).

Definition catalog : list RawProductInstance.t := [node; php; go].

Definition response : Response :=
  mkResponse true 200 (Fulfilled (JArray catalog)).

(** Every logo loads. *)
Definition browser : Browser :=
  mkBrowser (fun _ => Fulfilled response) (fun n _ => onload n).

(** The second logo fails to load, the two others load. *)
Definition browser_one_logo_fails : Browser :=
  mkBrowser (fun _ => Fulfilled response)
            (fun n _ => if (n =? 1)%nat then onerror 5 else onload n).

(** The heap after the conversion of the catalog, with the array of the
    converted instances stored for the component at reference 1. *)
Definition heap : Heap :=
  let '(p, h) := getProductInstances browser false emptyHeap in
  mkHeap (instanceObjs h) (flavorObjs h)
         (<[1%positive :=
              match p with Fulfilled result => result | _ => [] end]>
            (arrayObjs h)).


Definition props : InvoicingSimulator.Props :=
  InvoicingSimulator.mkProps 1%positive.

(** The user picks Node, then its flavor S (the flavor object 2). *)
Definition cart : InvoicingSimulator.State :=
  InvoicingSimulator.run productInstanceComparators.productFlavorComparator
    heap
    [InvoicingSimulator.selectInstance 1%positive;
     InvoicingSimulator.addFlavor 2%positive].

(** The user picks Node, then its flavor M (object 1), then S (object 2). *)
Definition cart_M_then_S : InvoicingSimulator.State :=
  InvoicingSimulator.run productInstanceComparators.productFlavorComparator
    heap
    [InvoicingSimulator.selectInstance 1%positive;
     InvoicingSimulator.addFlavor 1%positive;
     InvoicingSimulator.addFlavor 2%positive].






End Sample.

(** ** Notions used by the further properties *)

(** An instance object converted from a raw record, in full: it carries
    the fields of the record, and its array of flavors holds one flavor
    object per raw flavor, in the order of the record, each converted from
    its raw flavor and pointing back to the instance. *)
Definition converted_instance (raw : RawProductInstance.t) (r : ref)
    (h : Heap) : Prop :=
  exists flavors,
    instanceObjs h !! r
    = Some (ProductInstanceModel.mk
              (RawVariant.id (RawProductInstance.variant raw))
              (RawVariant.name (RawProductInstance.variant raw))
              (RawProductInstance.description raw)
              (RawVariant.logo (RawProductInstance.variant raw))
              (RawProductInstance.enabled raw)
              (RawProductInstance.comingSoon raw)
              flavors) /\
    match RawProductInstance.flavors raw with
    | None => flavors = None
    | Some rawFlavors =>
        exists refs,
          flavors = Some refs /\
          Forall2
            (fun rawProductFlavor f =>
               flavorObjs h !! f
               = Some (ProductInstancesService._productFlavorConverter
                         r rawProductFlavor))
            rawFlavors refs
    end.

(** A comparator that reads the objects only answers the same in two
    heaps that hold the same objects. *)
Definition reads_objects_only (compareFn : Heap -> ref -> ref -> comparison)
  : Prop :=
  forall h h',
    instanceObjs h = instanceObjs h' ->
    flavorObjs h = flavorObjs h' ->
    forall a b, compareFn h a b = compareFn h' a b.

(** A catalog in which the identities are what the data model expects:
    no two records have the same identifier, and no two flavors of a
    record have the same name. *)
Definition well_formed_catalog (raws : list RawProductInstance.t) : Prop :=
  NoDup ((fun raw => RawVariant.id (RawProductInstance.variant raw))
           <$> raws) /\
  forall raw rawFlavors,
    raw ∈ raws ->
    RawProductInstance.flavors raw = Some rawFlavors ->
    NoDup (RawProductFlavor.name <$> rawFlavors).

(** The flavors of a fetched catalog: the flavor objects held by the
    arrays of flavors of its instances. *)
Definition catalog_flavor (h : Heap) (result : list ref) (f : ref) : Prop :=
  exists productInstance flavors,
    productInstance ∈ result /\
    ProductInstanceModel.flavors (instanceAt h productInstance)
    = Some flavors /\
    f ∈ flavors.

Section ThroughTheLists.
Import InvoicingSimulator.
Variable productFlavorComparator : Heap -> ref -> ref -> comparison.

(** The states the component goes through when flavors are added from the
    list of the selectable flavors only: the button that adds a flavor is
    the one [productFlavorRenderer] draws for an item of that list. *)
Inductive reachable_through_the_lists (h : Heap) : State -> Prop :=
| through_initial : reachable_through_the_lists h state
| through_select productInstance st :
    reachable_through_the_lists h st ->
    reachable_through_the_lists h
      (onSelectProductInstance productInstance st)
| through_add f st :
    reachable_through_the_lists h st ->
    f ∈ items (renderProductFlavors productFlavorComparator h st) ->
    reachable_through_the_lists h
      (onSelectProductFlavor productFlavorComparator h f st)
| through_remove f st :
    reachable_through_the_lists h st ->
    reachable_through_the_lists h
      (onUnselectProductFlavor productFlavorComparator h f st).

End ThroughTheLists.

(** * Properties *)

(** ** Facts about [Array.prototype.sort] *)

Section ArraySortFacts.
Context {A : Type} (compareFn : A -> A -> comparison).

Lemma sort_insert_Permutation x l :
  Permutation (x :: l) (sort_insert compareFn x l).
Proof.
  induction l as [|y l IH]; simpl; [reflexivity|].
  destruct (compareFn x y); try reflexivity.
  rewrite perm_swap. now apply perm_skip.
Qed.

Lemma Array_sort_Permutation l : Permutation l (Array_sort compareFn l).
Proof.
  induction l as [|x l IH]; simpl; [constructor|].
  rewrite <- sort_insert_Permutation. now apply perm_skip.
Qed.

Lemma Array_sort_length l : length (Array_sort compareFn l) = length l.
Proof. symmetry. apply Permutation_length, Array_sort_Permutation. Qed.

Lemma Array_sort_elem_of x l : x ∈ Array_sort compareFn l <-> x ∈ l.
Proof. now rewrite <- (Array_sort_Permutation l). Qed.

(** A list that is already in order is left as it is. *)
Lemma sort_insert_HdRel x l :
  HdRel (in_order compareFn) x l -> sort_insert compareFn x l = x :: l.
Proof.
  destruct 1 as [|y l H]; simpl; [reflexivity|].
  unfold in_order in H. now destruct (compareFn x y).
Qed.

Lemma Array_sort_Sorted_id l :
  Sorted (in_order compareFn) l -> Array_sort compareFn l = l.
Proof.
  induction 1 as [|x l Hl IH Hx]; simpl; [reflexivity|].
  rewrite IH. now apply sort_insert_HdRel.
Qed.

(** The sort is stable: elements none of which must stand after another
    (elements that compare equal, for one) keep their order. *)
Lemma sort_insert_stable (P : A -> Prop) `{!forall a, Decision (P a)} x l :
  (forall a b, P a -> P b -> compareFn a b <> Gt) ->
  filter P (sort_insert compareFn x l) = filter P (x :: l).
Proof.
  intros HP. induction l as [|y l IH]; simpl; [reflexivity|].
  destruct (compareFn x y) eqn:E; try reflexivity.
  rewrite filter_cons, IH, !filter_cons.
  destruct (decide (P x)) as [Hx|Hx], (decide (P y)) as [Hy|Hy];
    try reflexivity.
  now destruct (HP x y Hx Hy).
Qed.

Lemma Array_sort_stable (P : A -> Prop) `{!forall a, Decision (P a)} l :
  (forall a b, P a -> P b -> compareFn a b <> Gt) ->
  filter P (Array_sort compareFn l) = filter P l.
Proof.
  intros HP. induction l as [|x l IH]; simpl; [reflexivity|].
  rewrite sort_insert_stable by exact HP.
  now rewrite !filter_cons, IH.
Qed.

(** With a comparator that never answers [Gt] both ways the result is in
    order. *)
Hypothesis compareFn_total :
  forall a b, compareFn a b = Gt -> compareFn b a <> Gt.

Lemma sort_insert_Sorted x l :
  Sorted (in_order compareFn) l ->
  Sorted (in_order compareFn) (sort_insert compareFn x l).
Proof using compareFn_total.
  induction 1 as [|y l Hl IH Hy]; simpl.
  - repeat constructor.
  - destruct (compareFn x y) eqn:E.
    + constructor; [now constructor|]. constructor.
      unfold in_order. now rewrite E.
    + constructor; [now constructor|]. constructor.
      unfold in_order. now rewrite E.
    + constructor; [exact IH|].
      destruct Hy as [|z l Hz]; simpl.
      * constructor. now apply compareFn_total.
      * destruct (compareFn x z); constructor;
          solve [now apply compareFn_total | exact Hz].
Qed.

Lemma Array_sort_Sorted l :
  Sorted (in_order compareFn) (Array_sort compareFn l).
Proof using compareFn_total.
  induction l as [|x l IH]; simpl; [constructor|].
  now apply sort_insert_Sorted.
Qed.

End ArraySortFacts.

(** ** Facts about the comparators *)

Section ComparatorFacts.
Import productInstanceComparators.

Lemma compareNumbers_Gt a b :
  compareNumbers a b = Gt -> compareNumbers b a = Lt.
Proof.
  unfold compareNumbers.
  destruct (a <? b)%float eqn:Hab, (b <? a)%float eqn:Hba; congruence.
Qed.

Lemma compareNumbers_Eq a b :
  compareNumbers a b = Eq -> compareNumbers b a = Eq.
Proof.
  unfold compareNumbers.
  destruct (a <? b)%float eqn:Hab, (b <? a)%float eqn:Hba; congruence.
Qed.

Lemma String_compare_Gt s1 s2 :
  String.compare s1 s2 = Gt -> String.compare s2 s1 = Lt.
Proof. rewrite (String.compare_antisym s2 s1). now intros ->. Qed.

Lemma String_compare_Eq s1 s2 :
  String.compare s1 s2 = Eq -> String.compare s2 s1 = Eq.
Proof. rewrite (String.compare_antisym s2 s1). now intros ->. Qed.

Lemma tie_break_Gt c1 c2 :
  tie_break c1 c2 = Gt -> c1 = Gt \/ (c1 = Eq /\ c2 = Gt).
Proof. destruct c1; simpl; auto; discriminate. Qed.

(** When one flavor must stand after another, the other may stand
    before it. *)
Lemma productFlavorComparator_Gt h a b :
  productFlavorComparator h a b = Gt -> productFlavorComparator h b a = Lt.
Proof.
  unfold productFlavorComparator. intros H.
  apply tie_break_Gt in H as [H|[H1 H]].
  - now rewrite (compareNumbers_Gt _ _ H).
  - rewrite (compareNumbers_Eq _ _ H1). simpl.
    apply tie_break_Gt in H as [H|[H2 H]].
    + now rewrite (String_compare_Gt _ _ H).
    + rewrite (String_compare_Eq _ _ H2). simpl.
      now apply String_compare_Gt.
Qed.

Lemma productFlavorComparator_total h a b :
  productFlavorComparator h a b = Gt -> productFlavorComparator h b a <> Gt.
Proof. intros H. now rewrite (productFlavorComparator_Gt _ _ _ H). Qed.

Lemma productInstanceComparator_total h a b :
  productInstanceComparator h a b = Gt ->
  productInstanceComparator h b a <> Gt.
Proof.
  unfold productInstanceComparator. intros H.
  apply tie_break_Gt in H as [H|[H1 H]].
  - now rewrite (String_compare_Gt _ _ H).
  - rewrite (String_compare_Eq _ _ H1). simpl.
    now rewrite (String_compare_Gt _ _ H).
Qed.

End ComparatorFacts.

(** ** The selection *)

Section SelectionFacts.
Import InvoicingSimulator.
Variable productFlavorComparator : Heap -> ref -> ref -> comparison.
Variable h : Heap.

Lemma filter_not_elem_of_id (f : ref) (l : list ref) :
  f ∉ l -> filter (fun g => g ≠ f) l = l.
Proof.
  induction l as [|x l IH]; intros Hf; [reflexivity|].
  apply not_elem_of_cons in Hf as [Hx Hl].
  rewrite filter_cons_True by congruence. now rewrite IH.
Qed.

Lemma selectedFlavors_onSelect f st :
  selectedFlavors (onSelectProductFlavor productFlavorComparator h f st)
  = Array_sort (productFlavorComparator h) (selectedFlavors st ++ [f]).
Proof. reflexivity. Qed.

Lemma selectedFlavors_onUnselect f st :
  selectedFlavors (onUnselectProductFlavor productFlavorComparator h f st)
  = Array_sort (productFlavorComparator h)
      (filter (fun g => g ≠ f) (selectedFlavors st)).
Proof. reflexivity. Qed.

Lemma reachable_run_from st clicks :
  reachable productFlavorComparator h st ->
  reachable productFlavorComparator h
    (fold_left (fun st i => handle productFlavorComparator h i st) clicks st).
Proof.
  revert st. induction clicks as [|i clicks IH]; intros st Hst; simpl.
  - exact Hst.
  - apply IH. now constructor.
Defined.

Lemma reachable_run clicks :
  reachable productFlavorComparator h (run productFlavorComparator h clicks).
Proof. apply reachable_run_from. constructor. Defined.

(** Every reachable state keeps its cart in the order of a comparator
    that never answers [Gt] both ways. *)
Lemma reachable_Sorted st :
  (forall a b, productFlavorComparator h a b = Gt ->
               productFlavorComparator h b a <> Gt) ->
  reachable productFlavorComparator h st ->
  Sorted (in_order (productFlavorComparator h)) (selectedFlavors st).
Proof.
  intros Htotal. induction 1 as [|i st Hst IH].
  - constructor.
  - destruct i as [pi|f|f]; cbn [handle].
    + exact IH.
    + rewrite selectedFlavors_onSelect. now apply Array_sort_Sorted.
    + rewrite selectedFlavors_onUnselect. now apply Array_sort_Sorted.
Qed.

End SelectionFacts.

Section CanonicalOrder.
Import productInstanceComparators.

Lemma String_compare_refl s : String.compare s s = Eq.
Proof.
  pose proof (String.compare_antisym s s) as H.
  destruct (String.compare s s); simpl in H; congruence.
Qed.

(** The comparator of the flavors puts [a] before [b] exactly in the
    canonical order. *)
Lemma in_order_flavor_precedes h a b :
  in_order (productFlavorComparator h) a b <-> flavor_precedes h a b.
Proof.
  unfold in_order, flavor_precedes, productFlavorComparator, compareNumbers.
  destruct (flavorPrice h a <? flavorPrice h b)%float; simpl.
  { split; [now left | discriminate]. }
  destruct (flavorPrice h b <? flavorPrice h a)%float; simpl.
  { split; [congruence | intros [?|[? _]]; congruence]. }
  destruct (String.compare (flavorName h a) (flavorName h b)) eqn:E; simpl.
  - apply String.compare_eq_iff in E. split.
    + intros H. right. split; [reflexivity|]. right. now split.
    + intros [?|[_ [?|[_ H]]]]; congruence.
  - split; [|discriminate]. intros _. right. split; [reflexivity|]. now left.
  - split; [congruence|]. intros [?|[_ [?|[Hn _]]]]; try congruence.
    rewrite Hn, String_compare_refl in E. discriminate.
Qed.

Lemma Sorted_iff {A : Type} (R R' : A -> A -> Prop) (l : list A) :
  (forall a b, R a b <-> R' a b) -> Sorted R l -> Sorted R' l.
Proof.
  intros HR. induction 1 as [|x l Hl IH Hx]; constructor; [exact IH|].
  destruct Hx; constructor. now apply HR.
Qed.

End CanonicalOrder.

(** ** The selection state machine *)

Section SelectionClaims.
Import InvoicingSimulator.
Variable productFlavorComparator : Heap -> ref -> ref -> comparison.

(** C7.  Selecting an instance replaces the selected instance by the given
    one and leaves the selected flavors exactly as they were, whatever
    instance they belong to. *)
Theorem selectInstance_keeps_selectedFlavors
    (h : Heap) (productInstance : ref) (st : State) :
  selectedProductInstance (onSelectProductInstance productInstance st)
  = Some productInstance /\
  selectedFlavors (onSelectProductInstance productInstance st)
  = selectedFlavors st /\
  handle productFlavorComparator h (selectInstance productInstance) st
  = mkState (Some productInstance) (selectedFlavors st).
Proof. repeat split. Qed.

(** C2, as the code has it.  Adding a flavor appends it to the selected
    flavors and sorts the result, whether the flavor is already selected
    or not: the cart gets one entry more, so a flavor that is added twice
    is held twice.  What keeps the cart free of duplicates is the list of
    the selectable flavors: it offers no flavor that is already selected,
    and adding a flavor taken from it to a duplicate-free cart gives a
    duplicate-free cart. *)
Theorem addFlavor_appends_then_sorts (h : Heap) (f : ref) (st : State) :
  selectedFlavors (onSelectProductFlavor productFlavorComparator h f st)
    ≡ₚ selectedFlavors st ++ [f] /\
  length (selectedFlavors (onSelectProductFlavor productFlavorComparator h f st))
    = S (length (selectedFlavors st)) /\
  ((forall a b, productFlavorComparator h a b = Gt ->
                productFlavorComparator h b a <> Gt) ->
   Sorted (in_order (productFlavorComparator h))
     (selectedFlavors (onSelectProductFlavor productFlavorComparator h f st))) /\
  (forall g, g ∈ items (renderProductFlavors productFlavorComparator h st) ->
             g ∈ selectedInstanceFlavors h st /\ g ∉ selectedFlavors st) /\
  (NoDup (selectedFlavors st) ->
   f ∈ items (renderProductFlavors productFlavorComparator h st) ->
   NoDup (selectedFlavors (onSelectProductFlavor productFlavorComparator h f st))).
Proof.
  rewrite selectedFlavors_onSelect.
  assert (Hview : forall g,
             g ∈ items (renderProductFlavors productFlavorComparator h st) ->
             g ∈ selectedInstanceFlavors h st /\ g ∉ selectedFlavors st).
  { intros g. unfold renderProductFlavors. cbn [items].
    rewrite Array_sort_elem_of, list_elem_of_filter. tauto. }
  split; [symmetry; apply Array_sort_Permutation|].
  split; [rewrite Array_sort_length, length_app; simpl; lia|].
  split; [intros Htotal; now apply Array_sort_Sorted|].
  split; [exact Hview|].
  intros Hnodup Hf. apply Hview in Hf as [_ Hf].
  rewrite <- (Array_sort_Permutation (productFlavorComparator h)).
  apply NoDup_app. split; [exact Hnodup|]. split.
  - intros x Hx Hxf. apply list_elem_of_singleton in Hxf. congruence.
  - apply NoDup_singleton.
Qed.


End SelectionClaims.

Section SelectionOnTheCatalog.
Import InvoicingSimulator productInstanceComparators.

(** C2, as the claim states it, fails.  In the sample catalog the user
    picks Node and adds its flavor S; the cart holds S.  Adding S again
    gives a cart that holds S twice. *)
Lemma addFlavor_twice_duplicates :
  Sample.cart = run productFlavorComparator Sample.heap
                  [selectInstance 1%positive; addFlavor 2%positive] /\
  2%positive ∈ selectedFlavors Sample.cart /\
  selectedFlavors Sample.cart = [2%positive] /\
  selectedFlavors
    (onSelectProductFlavor productFlavorComparator Sample.heap 2%positive
       Sample.cart)
  = [2%positive; 2%positive] /\
  selectedFlavors
    (onSelectProductFlavor productFlavorComparator Sample.heap 2%positive
       Sample.cart)
  <> selectedFlavors Sample.cart.
Proof.
  split; [reflexivity|].
  split; [vm_compute; constructor|].
  split; [vm_compute; reflexivity|].
  split; [vm_compute; reflexivity|].
  vm_compute. discriminate.
Qed.


(** C8.  In every state reachable from the initial one by selecting
    instances and adding and removing flavors, the selected flavors are
    in the canonical order: price ascending, then name, then identifier
    of the owning instance. *)
Theorem selectedFlavors_in_canonical_order (h : Heap) (st : State) :
  reachable productFlavorComparator h st ->
  Sorted (flavor_precedes h) (selectedFlavors st).
Proof.
  intros Hst.
  apply (Sorted_iff (in_order (productFlavorComparator h))).
  - apply in_order_flavor_precedes.
  - apply reachable_Sorted; [apply productFlavorComparator_total | exact Hst].
Qed.

(** The flavor M was added before the cheaper flavor S: the cart holds S
    first. *)
Lemma selectedFlavors_in_canonical_order_witness :
  selectedFlavors Sample.cart_M_then_S = [2%positive; 1%positive] /\
  Sorted (flavor_precedes Sample.heap) (selectedFlavors Sample.cart_M_then_S).
Proof.
  split; [vm_compute; reflexivity|].
  apply (selectedFlavors_in_canonical_order Sample.heap Sample.cart_M_then_S).
  apply reachable_run.
Defined.

(** C9.  The total of the header is the sum of the prices of the selected
    flavors, accumulated from 0 by plain additions in the order of the
    cart: 0 for an empty cart, one more addition per flavor, and 519.04
    for the prices 419.04 and 100.0. *)
Theorem totalPrice_is_the_plain_sum (h : Heap) :
  (forall productInstance,
     renderHeader h (mkState productInstance []) = 0%float) /\
  (forall productInstance l f,
     renderHeader h (mkState productInstance (l ++ [f]))
     = (renderHeader h (mkState productInstance l) + flavorPrice h f)%float) /\
  (forall st,
     renderHeader h st
     = fold_left PrimFloat.add (map (flavorPrice h) (selectedFlavors st))
                 0%float) /\
  (forall productInstance a b,
     flavorPrice h a = 419.04%float ->
     flavorPrice h b = 100.0%float ->
     renderHeader h (mkState productInstance [a; b]) = 519.04%float).
Proof.
  unfold renderHeader, totalPrice. cbn [selectedFlavors].
  split; [reflexivity|].
  split.
  { intros _ l f. now rewrite map_app, fold_left_app. }
  split; [reflexivity|].
  intros _ a b Ha Hb. simpl. rewrite Ha, Hb. reflexivity.
Qed.

(** C10.  Rendering sorts the array the caller gave as [productInstances]
    in place: after a render that very array holds its former elements
    in the order of the instance comparator, and the list of the catalog
    shows it; no other array and no object is touched.  The array of the
    sample catalog, [1; 2; 3] as fetched, is [3; 1; 2] after a render. *)
Theorem render_sorts_productInstances_in_place
    (h : Heap) (props : Props) (st : State) :
  arrayAt (fst (render productFlavorComparator productInstanceComparator
                  h props st))
          (productInstances props)
  = Array_sort (productInstanceComparator h)
               (arrayAt h (productInstances props)) /\
  arrayAt (fst (render productFlavorComparator productInstanceComparator
                  h props st))
          (productInstances props)
    ≡ₚ arrayAt h (productInstances props) /\
  Sorted (in_order (productInstanceComparator h))
    (arrayAt (fst (render productFlavorComparator productInstanceComparator
                     h props st))
             (productInstances props)) /\
  items (productInstancesList
           (snd (render productFlavorComparator productInstanceComparator
                   h props st)))
  = arrayAt (fst (render productFlavorComparator productInstanceComparator
                    h props st))
            (productInstances props) /\
  (forall r, r ≠ productInstances props ->
     arrayObjs (fst (render productFlavorComparator productInstanceComparator
                       h props st)) !! r
     = arrayObjs h !! r) /\
  instanceObjs (fst (render productFlavorComparator productInstanceComparator
                       h props st)) = instanceObjs h /\
  flavorObjs (fst (render productFlavorComparator productInstanceComparator
                     h props st)) = flavorObjs h /\
  (arrayAt Sample.heap (productInstances Sample.props)
   = [1%positive; 2%positive; 3%positive] /\
   arrayAt (fst (render productFlavorComparator productInstanceComparator
                   Sample.heap Sample.props state))
           (productInstances Sample.props)
   = [3%positive; 1%positive; 2%positive]).
Proof.
  assert (E : arrayAt (fst (render productFlavorComparator
                              productInstanceComparator h props st))
                      (productInstances props)
               = Array_sort (productInstanceComparator h)
                            (arrayAt h (productInstances props))).
  { unfold render, renderProductInstances, arrayAt. cbn [fst arrayObjs].
    apply lookup_total_insert_eq. }
  rewrite E.
  split; [reflexivity|].
  split; [symmetry; apply Array_sort_Permutation|].
  split; [apply Array_sort_Sorted, productInstanceComparator_total|].
  split; [reflexivity|].
  split; [intros r Hr; unfold render, renderProductInstances;
          cbn [fst arrayObjs]; now apply lookup_insert_ne|].
  split; [reflexivity|].
  split; [reflexivity|].
  split; vm_compute; reflexivity.
Qed.

End SelectionOnTheCatalog.

(** ** Facts about strings *)

Lemma String_length_append (s1 s2 : string) :
  String.length (s1 +:+ s2) = String.length s1 + String.length s2.
Proof. induction s1 as [|c s1 IH]; simpl; [reflexivity | now rewrite IH]. Qed.

Lemma String_append_inj_r (s1 s2 t : string) :
  s1 +:+ t = s2 +:+ t -> s1 = s2.
Proof.
  revert s2. induction s1 as [|c1 s1 IH]; intros [|c2 s2] H.
  - reflexivity.
  - apply (f_equal String.length) in H.
    rewrite !String_length_append in H. simpl in H. lia.
  - apply (f_equal String.length) in H.
    rewrite !String_length_append in H. simpl in H. lia.
  - change (String c1 (s1 +:+ t) = String c2 (s2 +:+ t)) in H.
    injection H as -> H. f_equal. now apply IH.
Qed.

Lemma toString_inj (n n' : N) : toString n = toString n' -> n = n'.
Proof.
  unfold toString. intros H.
  apply DecimalN.Unsigned.to_uint_inj.
  pose proof (NilEmpty.usu (N.to_uint n)) as E.
  rewrite H, NilEmpty.usu in E. congruence.
Qed.

(** ** Facts about promises *)

Section PromiseFacts.
Context {A : Type}.

Lemma first_rejection_None (promises : list (Settling A)) :
  first_rejection promises = None ->
  forall j u r, promises !! j <> Some (rejects u r).
Proof.
  induction promises as [|p promises IH]; intros Hn j u r Hj.
  - destruct j; discriminate.
  - simpl in Hn.
    destruct p as [tp v|tp ep|]; destruct j as [|j]; simpl in Hj;
      try discriminate;
      try (destruct (first_rejection promises) as [[t' e']|];
           [destruct (tp <=? t')%nat|]; discriminate);
      exact (IH Hn j u r Hj).
Qed.

(** The reason [Promise.all] rejects with is the reason of one of the
    promises that reject, and none of them rejects earlier. *)
Lemma first_rejection_Some (promises : list (Settling A)) t e :
  first_rejection promises = Some (t, e) ->
  (exists k, promises !! k = Some (rejects t e)) /\
  (forall j u r, promises !! j = Some (rejects u r) -> t <= u).
Proof.
  revert t e. induction promises as [|p promises IH]; intros t e Hf.
  - discriminate.
  - simpl in Hf. destruct p as [tp v|tp ep|].
    + destruct (IH t e Hf) as [[k Hk] Hmin]. split; [now exists (S k)|].
      intros [|j] u r Hj; [discriminate|]. exact (Hmin j u r Hj).
    + destruct (first_rejection promises) as [[t' e']|] eqn:Hps.
      * destruct (IH t' e' eq_refl) as [[k Hk] Hmin].
        destruct (tp <=? t')%nat eqn:Hle.
        -- apply Nat.leb_le in Hle. injection Hf as <- <-.
           split; [now exists 0|].
           intros [|j] u r Hj; simpl in Hj.
           ++ injection Hj as <- _. lia.
           ++ specialize (Hmin j u r Hj). lia.
        -- apply Nat.leb_gt in Hle. injection Hf as <- <-.
           split; [now exists (S k)|].
           intros [|j] u r Hj; simpl in Hj.
           ++ injection Hj as <- _. lia.
           ++ exact (Hmin j u r Hj).
      * injection Hf as <- <-. split; [now exists 0|].
        intros [|j] u r Hj; simpl in Hj.
        -- injection Hj as <- _. lia.
        -- now destruct (first_rejection_None promises Hps j u r).
    + destruct (IH t e Hf) as [[k Hk] Hmin]. split; [now exists (S k)|].
      intros [|j] u r Hj; [discriminate|]. exact (Hmin j u r Hj).
Qed.

(** As soon as one promise rejects, [Promise.all] rejects, with the reason
    of a promise that rejects first. *)
Lemma Promise_all_rejects (promises : list (Settling A)) k t e :
  promises !! k = Some (rejects t e) ->
  exists k' t' e',
    Promise_all promises = Rejected e' /\
    promises !! k' = Some (rejects t' e') /\
    forall j u r, promises !! j = Some (rejects u r) -> t' <= u.
Proof.
  intros Hk. unfold Promise_all.
  destruct (first_rejection promises) as [[t' e']|] eqn:Hf.
  - destruct (first_rejection_Some _ _ _ Hf) as [[k' Hk'] Hmin].
    now exists k', t', e'.
  - now destruct (first_rejection_None _ Hf k t e).
Qed.

(** When every promise is fulfilled, [Promise.all] is fulfilled with the
    values. *)
Lemma Promise_all_fulfils (promises : list (Settling A)) :
  (forall k p, promises !! k = Some p -> exists t v, p = fulfils t v) ->
  exists values,
    Promise_all promises = Fulfilled values /\
    length values = length promises.
Proof.
  intros Hall.
  assert (Hv : exists values, all_values promises = Some values /\
                              length values = length promises).
  { induction promises as [|p promises IH]; [now exists []|].
    destruct (Hall 0 p eq_refl) as (t & v & ->).
    destruct IH as (values & Hv & Hlen).
    { intros k q Hq. exact (Hall (S k) q Hq). }
    exists (v :: values). simpl. rewrite Hv. simpl. now rewrite Hlen. }
  destruct Hv as (values & Hv & Hlen). exists values. split; [|exact Hlen].
  unfold Promise_all. rewrite Hv.
  destruct (first_rejection promises) as [[t e]|] eqn:Hf; [|reflexivity].
  destruct (first_rejection_Some _ _ _ Hf) as [[k Hk] _].
  destruct (Hall k _ Hk) as (? & ? & ?). discriminate.
Qed.

End PromiseFacts.

(** ** Facts about allocation and conversion *)

Section ConversionFacts.
Import ProductInstancesService.

Lemma heap_extends_refl h : heap_extends h h.
Proof. split; [reflexivity|]. split; reflexivity. Qed.

Lemma heap_extends_trans h1 h2 h3 :
  heap_extends h1 h2 -> heap_extends h2 h3 -> heap_extends h1 h3.
Proof.
  intros (Hi & Hf & Ha) (Hi' & Hf' & Ha'). split; [|split].
  - now transitivity (instanceObjs h2).
  - now transitivity (flavorObjs h2).
  - congruence.
Qed.

Lemma new_flavor_spec o h :
  exists r h',
    new_flavor o h = (Fulfilled r, h') /\
    heap_extends h h' /\
    flavorObjs h' !! r = Some o.
Proof.
  eexists _, _. split; [reflexivity|]. split.
  - split; [reflexivity|]. split; [|reflexivity].
    cbn [flavorObjs]. apply insert_subseteq, not_elem_of_dom, is_fresh.
  - apply lookup_insert_eq.
Qed.

(** [array.map(f)] with an [f] that only allocates: the results are
    related to the elements one by one, in the final heap. *)
Lemma Array_map_Forall2 {A B : Type} (f : A -> Async B)
    (Q : A -> B -> Heap -> Prop) :
  (forall x h, exists y h',
      f x h = (Fulfilled y, h') /\ heap_extends h h' /\ Q x y h') ->
  (forall x y h h', Q x y h -> heap_extends h h' -> Q x y h') ->
  forall l h, exists ys h',
    Array_map f l h = (Fulfilled ys, h') /\
    heap_extends h h' /\
    Forall2 (fun x y => Q x y h') l ys.
Proof.
  intros Hf Hmono. induction l as [|x l IH]; intros h.
  - exists [], h. split; [reflexivity|].
    split; [apply heap_extends_refl | constructor].
  - destruct (Hf x h) as (y & h1 & Hy & Hext1 & HQ).
    destruct (IH h1) as (ys & h2 & Hys & Hext2 & HQs).
    exists (y :: ys), h2. split.
    + simpl. unfold async_bind. rewrite Hy, Hys. reflexivity.
    + split; [now apply (heap_extends_trans h h1 h2)|].
      constructor; [now apply (Hmono x y h1 h2) | exact HQs].
Qed.

(** What the converter builds from a raw record: a new instance object
    with the fields of the record, and one new flavor object per raw
    flavor, each pointing back to the instance. *)
Lemma _productInstanceConverter_spec raw h :
  exists productInstance h' flavors,
    _productInstanceConverter raw h = (Fulfilled productInstance, h') /\
    heap_extends h h' /\
    instanceObjs h' !! productInstance
    = Some (ProductInstanceModel.mk
              (RawVariant.id (RawProductInstance.variant raw))
              (RawVariant.name (RawProductInstance.variant raw))
              (RawProductInstance.description raw)
              (RawVariant.logo (RawProductInstance.variant raw))
              (RawProductInstance.enabled raw)
              (RawProductInstance.comingSoon raw)
              flavors) /\
    match RawProductInstance.flavors raw with
    | None => flavors = None
    | Some rawFlavors =>
        exists refs,
          flavors = Some refs /\
          Forall2
            (fun rawProductFlavor f =>
               flavorObjs h' !! f
               = Some (_productFlavorConverter productInstance
                                               rawProductFlavor))
            rawFlavors refs
    end.
Proof.
  unfold _productInstanceConverter, async_bind, new_instance.
  set (productInstance := fresh (dom (instanceObjs h))).
  assert (Hfresh : instanceObjs h !! productInstance = None)
    by apply not_elem_of_dom, is_fresh.
  set (o := ProductInstanceModel.mk _ _ _ _ _ _ (Some [])).
  set (h1 := mkHeap (<[productInstance := o]> (instanceObjs h)) _ _).
  assert (Hext1 : heap_extends h h1).
  { split; [|split; reflexivity]. cbn [instanceObjs h1].
    now apply insert_subseteq. }
  assert (Ho : instanceObjs h1 !! productInstance = Some o)
    by apply lookup_insert_eq.
  destruct (RawProductInstance.flavors raw) as [rawFlavors|].
  - destruct (Array_map_Forall2
                (fun rawProductFlavor =>
                   new_flavor (_productFlavorConverter productInstance
                                                       rawProductFlavor))
                (fun rawProductFlavor f h =>
                   flavorObjs h !! f
                   = Some (_productFlavorConverter productInstance
                                                   rawProductFlavor)))
      with (l := rawFlavors) (h := h1)
      as (refs & h2 & Hmap & Hext2 & Hrefs).
    { intros x h0. apply new_flavor_spec. }
    { intros x y h0 h0' Hy (_ & Hsub & _). exact (lookup_weaken _ _ _ _ Hy Hsub). }
    rewrite Hmap. cbn [async_return set_flavors].
    destruct Hext2 as (Hi2 & Hf2 & Ha2).
    pose proof (lookup_weaken _ _ _ _ Ho Hi2) as Ho2.
    unfold instanceAt. rewrite (lookup_total_correct _ _ _ Ho2).
    eexists _, _, _. split; [reflexivity|]. cbn [instanceObjs flavorObjs arrayObjs].
    split.
    + destruct Hext1 as (Hi1 & Hf1 & Ha1). split; [|split].
      * apply insert_subseteq_r; [exact Hfresh|].
        now transitivity (instanceObjs h1).
      * now transitivity (flavorObjs h1).
      * cbn [arrayObjs]. rewrite Ha2. exact Ha1.
    + split; [apply lookup_insert_eq|]. exists refs. split; [reflexivity|exact Hrefs].
  - cbn [async_return set_flavors].
    unfold instanceAt. rewrite (lookup_total_correct _ _ _ Ho).
    eexists _, _, _. split; [reflexivity|]. cbn [instanceObjs flavorObjs arrayObjs].
    split.
    + destruct Hext1 as (Hi1 & Hf1 & Ha1). split; [|split].
      * apply insert_subseteq_r; [exact Hfresh|exact Hi1].
      * exact Hf1.
      * exact Ha1.
    + split; [apply lookup_insert_eq|reflexivity].
Qed.

End ConversionFacts.

(** ** The catalog service *)

Section ServiceFacts.
Import ProductInstancesService.

Lemma _fetchProductInstances_not_ok browser response h :
  fetch browser endpoint = Fulfilled response ->
  ok response = false ->
  _fetchProductInstances browser h
  = (Rejected (Error (responseErrorMessage (status response))), h).
Proof.
  intros Hfetch Hok.
  unfold _fetchProductInstances, async_bind, try_catch, await.
  now rewrite Hfetch, Hok.
Qed.

Lemma _fetchProductInstances_ok browser response body h :
  fetch browser endpoint = Fulfilled response ->
  ok response = true ->
  json response = Fulfilled body ->
  _fetchProductInstances browser h
  = (Fulfilled (if truthy body then body else JArray []), h).
Proof.
  intros Hfetch Hok Hjson.
  unfold _fetchProductInstances, async_bind, try_catch, await.
  now rewrite Hfetch, Hok, Hjson.
Qed.

Lemma responseErrorMessage_inj s s' :
  responseErrorMessage s = responseErrorMessage s' -> s = s'.
Proof.
  unfold responseErrorMessage. intros H.
  apply String.app_inj in H. apply String_append_inj_r in H.
  now apply toString_inj.
Qed.

Lemma Array_map_converter raws h :
  exists result h',
    Array_map _productInstanceConverter raws h = (Fulfilled result, h') /\
    heap_extends h h' /\
    Forall2 (fun raw r => converted_from raw r h') raws result.
Proof.
  apply Array_map_Forall2.
  - intros raw h0.
    destruct (_productInstanceConverter_spec raw h0)
      as (r & h' & fl & Hconv & Hext & Hobj & _).
    exists r, h'. split; [exact Hconv|]. split; [exact Hext|].
    eexists. split; [exact Hobj|reflexivity].
  - intros raw r h0 h0' (o & Ho & Hlogo) (Hsub & _).
    exists o. split; [exact (lookup_weaken _ _ _ _ Ho Hsub)|exact Hlogo].
Qed.

(** The promises [getProductInstances] gives to [Promise.all]. *)
Lemma preloads_lookup browser raws result h' k :
  Forall2 (fun raw r => converted_from raw r h') raws result ->
  imap (fun n r =>
          _preloadImage browser n
            (ProductInstanceModel.logo (instanceAt h' r))) result !! k
  = (fun raw =>
       _preloadImage browser k
         (RawVariant.logo (RawProductInstance.variant raw))) <$> raws !! k.
Proof.
  intros Hconv. rewrite list_lookup_imap.
  destruct (raws !! k) as [raw|] eqn:Hraw.
  - destruct (Forall2_lookup_l _ _ _ _ _ Hconv Hraw)
      as (r & -> & o & Ho & Hlogo).
    simpl. unfold instanceAt.
    now rewrite (lookup_total_correct _ _ _ Ho), Hlogo.
  - assert (Hnone : result !! k = None).
    { apply lookup_ge_None. rewrite <- (Forall2_length _ _ _ Hconv).
      now apply lookup_ge_None. }
    now rewrite Hnone.
Qed.

End ServiceFacts.

Section ServiceClaims.
Import ProductInstancesService.

(** C1.  The conversion of a raw record stores, for every raw flavor of
    the record, a flavor object whose price is the raw price multiplied by
    41.904, a plain binary64 multiplication; a raw price of 10 is stored
    as 419.04. *)
Theorem converter_multiplies_price_by_41_904
    (raw : RawProductInstance.t) (rawFlavors : list RawProductFlavor.t)
    (k : nat) (rawProductFlavor : RawProductFlavor.t) (h : Heap) :
  RawProductInstance.flavors raw = Some rawFlavors ->
  rawFlavors !! k = Some rawProductFlavor ->
  exists productInstance refs f,
    fst (_productInstanceConverter raw h) = Fulfilled productInstance /\
    ProductInstanceModel.flavors
      (instanceAt (snd (_productInstanceConverter raw h)) productInstance)
    = Some refs /\
    length refs = length rawFlavors /\
    refs !! k = Some f /\
    ProductFlavorModel.instance
      (flavorAt (snd (_productInstanceConverter raw h)) f)
    = productInstance /\
    flavorName (snd (_productInstanceConverter raw h)) f
    = RawProductFlavor.name rawProductFlavor /\
    flavorPrice (snd (_productInstanceConverter raw h)) f
    = (RawProductFlavor.price rawProductFlavor * 41.904)%float /\
    (RawProductFlavor.price rawProductFlavor = 10%float ->
     flavorPrice (snd (_productInstanceConverter raw h)) f = 419.04%float).
Proof.
  intros Hflavors Hk.
  destruct (_productInstanceConverter_spec raw h)
    as (productInstance & h' & fl & Hconv & _ & Hobj & Hfl).
  rewrite Hflavors in Hfl. destruct Hfl as (refs & -> & Hrefs).
  destruct (Forall2_lookup_l _ _ _ _ _ Hrefs Hk) as (f & Hf & Hobjf).
  exists productInstance, refs, f. rewrite Hconv. cbn [fst snd].
  unfold flavorName, flavorPrice, flavorAt, instanceAt.
  rewrite (lookup_total_correct _ _ _ Hobj).
  rewrite (lookup_total_correct _ _ _ Hobjf).
  cbn [ProductInstanceModel.flavors _productFlavorConverter
       ProductFlavorModel.instance ProductFlavorModel.name
       ProductFlavorModel.price].
  split; [reflexivity|]. split; [reflexivity|].
  split; [symmetry; exact (Forall2_length _ _ _ Hrefs)|].
  split; [exact Hf|]. split; [reflexivity|]. split; [reflexivity|].
  split; [reflexivity|]. intros ->. reflexivity.
Qed.

(** The flavor S of the sample record Node has the raw price 10. *)
Lemma converter_multiplies_price_by_41_904_witness :
  exists productInstance refs f,
    fst (_productInstanceConverter Sample.node emptyHeap)
    = Fulfilled productInstance /\
    ProductInstanceModel.flavors
      (instanceAt (snd (_productInstanceConverter Sample.node emptyHeap))
                  productInstance)
    = Some refs /\
    length refs = 2 /\
    refs !! 1 = Some f /\
    ProductFlavorModel.instance
      (flavorAt (snd (_productInstanceConverter Sample.node emptyHeap)) f)
    = productInstance /\
    flavorName (snd (_productInstanceConverter Sample.node emptyHeap)) f
    = "S" /\
    flavorPrice (snd (_productInstanceConverter Sample.node emptyHeap)) f
    = (10 * 41.904)%float /\
    (10%float = 10%float ->
     flavorPrice (snd (_productInstanceConverter Sample.node emptyHeap)) f
     = 419.04%float).
Proof.
  exact (converter_multiplies_price_by_41_904 Sample.node
           [Sample.rawFlavor "M" 20%float; Sample.rawFlavor "S" 10%float]
           1 (Sample.rawFlavor "S" 10%float) emptyHeap eq_refl eq_refl).
Defined.




(** C5.  When the response is not successful, the call is rejected with
    the error of the fetch, whose message carries the status code in
    decimal (two different codes give two different messages), and with
    nothing else; the status 500 gives the message with 500. *)
Theorem non_success_status_is_reported
    (browser : Browser) (preloadProductLogos : bool) (h : Heap)
    (response : Response) :
  fetch browser endpoint = Fulfilled response ->
  ok response = false ->
  getProductInstances browser preloadProductLogos h
  = (Rejected (Error (responseErrorMessage (status response))), h) /\
  (forall s, responseErrorMessage s = responseErrorMessage (status response) ->
             s = status response) /\
  (status response = 500%N ->
   fst (getProductInstances browser preloadProductLogos h)
   = Rejected
       (Error
          "We could not fetch product instances. Server responded with error 500. Please retry later.")).
Proof.
  intros Hfetch Hok.
  assert (E : getProductInstances browser preloadProductLogos h
              = (Rejected (Error (responseErrorMessage (status response))), h)).
  { unfold getProductInstances, async_bind.
    now rewrite (_fetchProductInstances_not_ok _ _ _ Hfetch Hok). }
  split; [exact E|].
  split; [intros s; apply responseErrorMessage_inj|].
  intros Hs. rewrite E, Hs. reflexivity.
Qed.

Lemma non_success_status_is_reported_witness :
  getProductInstances
    (mkBrowser (fun _ => Fulfilled (mkResponse false 500 Pending))
               (fun _ _ => noevent))
    true emptyHeap
  = (Rejected
       (Error
          "We could not fetch product instances. Server responded with error 500. Please retry later."),
     emptyHeap).
Proof.
  exact (proj1 (non_success_status_is_reported
                  (mkBrowser
                     (fun _ => Fulfilled (mkResponse false 500 Pending))
                     (fun _ _ => noevent))
                  true emptyHeap (mkResponse false 500 Pending)
                  eq_refl eq_refl)).
Defined.

End ServiceClaims.

Section PreloadClaims.
Import ProductInstancesService.

(** [getProductInstances] up to the preloading of the logos. *)
Lemma getProductInstances_converted browser h response raws :
  fetch browser endpoint = Fulfilled response ->
  ok response = true ->
  json response = Fulfilled (JArray raws) ->
  exists result h',
    Forall2 (fun raw r => converted_from raw r h') raws result /\
    getProductInstances browser false h = (Fulfilled result, h') /\
    getProductInstances browser true h
    = (match
         Promise_all
           (imap (fun n r =>
                    _preloadImage browser n
                      (ProductInstanceModel.logo (instanceAt h' r)))
                 result)
       with
       | Fulfilled _ => Fulfilled result
       | Rejected e => Rejected e
       | Pending => Pending
       end,
       h').
Proof.
  intros Hfetch Hok Hjson.
  destruct (Array_map_converter raws h) as (result & h' & Hmap & _ & Hconv).
  exists result, h'. split; [exact Hconv|].
  unfold getProductInstances, async_bind.
  rewrite (_fetchProductInstances_ok _ _ _ _ Hfetch Hok Hjson).
  cbn [truthy]. rewrite Hmap. split; [reflexivity|].
  now destruct (Promise_all _).
Qed.

Lemma _preloadImage_rejects browser n imageUrl t e :
  _preloadImage browser n imageUrl = rejects t e ->
  Image browser n imageUrl = onerror t /\ e = ImageErrorEvent imageUrl.
Proof.
  unfold _preloadImage.
  destruct (Image browser n imageUrl); intros H; try discriminate.
  injection H as -> <-. now split.
Qed.

(** C6.  With the preloading of the logos: if the image of one instance
    fails to load, the call is rejected with the error event of an image
    that failed (the one that failed first), whatever the other images
    do; if every image loads, the call gives exactly what it gives
    without preloading, the converted instances. *)
Theorem preloading_fails_when_one_logo_fails
    (browser : Browser) (h : Heap) (response : Response)
    (raws : list RawProductInstance.t) :
  fetch browser endpoint = Fulfilled response ->
  ok response = true ->
  json response = Fulfilled (JArray raws) ->
  ((exists k raw t,
       raws !! k = Some raw /\
       Image browser k (RawVariant.logo (RawProductInstance.variant raw))
       = onerror t) ->
   exists k raw t,
     raws !! k = Some raw /\
     Image browser k (RawVariant.logo (RawProductInstance.variant raw))
     = onerror t /\
     (forall j rawj u,
        raws !! j = Some rawj ->
        Image browser j (RawVariant.logo (RawProductInstance.variant rawj))
        = onerror u ->
        t <= u) /\
     fst (getProductInstances browser true h)
     = Rejected
         (ImageErrorEvent (RawVariant.logo (RawProductInstance.variant raw))))
  /\
  ((forall k raw,
       raws !! k = Some raw ->
       exists t,
         Image browser k (RawVariant.logo (RawProductInstance.variant raw))
         = onload t) ->
   getProductInstances browser true h = getProductInstances browser false h /\
   exists result,
     fst (getProductInstances browser true h) = Fulfilled result /\
     length result = length raws).
Proof.
  intros Hfetch Hok Hjson.
  destruct (getProductInstances_converted browser h response raws
              Hfetch Hok Hjson) as (result & h' & Hconv & Hfalse & Htrue).
  rewrite Htrue, Hfalse. clear Htrue Hfalse.
  cbn [fst].
  set (promises :=
         imap (fun n r =>
                 _preloadImage browser n
                   (ProductInstanceModel.logo (instanceAt h' r))) result).
  assert (Hlookup : forall k,
             promises !! k
             = (fun raw =>
                  _preloadImage browser k
                    (RawVariant.logo (RawProductInstance.variant raw)))
                 <$> raws !! k)
    by (intros k; now apply preloads_lookup).
  split.
  - intros (k & raw & t & Hk & Himg).
    assert (Hpk : promises !! k
                  = Some (rejects t (ImageErrorEvent
                            (RawVariant.logo
                               (RawProductInstance.variant raw))))).
    { rewrite Hlookup, Hk. simpl. unfold _preloadImage. now rewrite Himg. }
    destruct (Promise_all_rejects promises k _ _ Hpk)
      as (k' & t' & e' & Hall & Hk' & Hmin).
    rewrite Hlookup in Hk'.
    destruct (raws !! k') as [raw'|] eqn:Hraw'; [|discriminate].
    simpl in Hk'. injection Hk' as Hk'.
    apply _preloadImage_rejects in Hk' as [Himg' ->].
    exists k', raw', t'. split; [exact Hraw'|]. split; [exact Himg'|].
    split; [|now rewrite Hall].
    intros j rawj u Hj Hu. apply (Hmin j u (ImageErrorEvent
      (RawVariant.logo (RawProductInstance.variant rawj)))).
    rewrite Hlookup, Hj. simpl. unfold _preloadImage. now rewrite Hu.
  - intros Hloads.
    destruct (Promise_all_fulfils promises) as (values & Hall & _).
    { intros k p Hp. rewrite Hlookup in Hp.
      destruct (raws !! k) as [raw|] eqn:Hraw; [|discriminate].
      simpl in Hp. injection Hp as <-.
      destruct (Hloads k raw Hraw) as (t & Ht).
      exists t, tt. unfold _preloadImage. now rewrite Ht. }
    rewrite Hall. split; [reflexivity|].
    exists result. split; [reflexivity|].
    symmetry. exact (Forall2_length _ _ _ Hconv).
Qed.

(** The second of the three logos of the sample catalog fails to load, the
    two others load: the call is rejected with the event of that image. *)
Lemma preloading_fails_when_one_logo_fails_witness :
  exists k raw t,
    Sample.catalog !! k = Some raw /\
    Image Sample.browser_one_logo_fails k
          (RawVariant.logo (RawProductInstance.variant raw))
    = onerror t /\
    (forall j rawj u,
       Sample.catalog !! j = Some rawj ->
       Image Sample.browser_one_logo_fails j
             (RawVariant.logo (RawProductInstance.variant rawj))
       = onerror u ->
       t <= u) /\
    fst (getProductInstances Sample.browser_one_logo_fails true emptyHeap)
    = Rejected
        (ImageErrorEvent (RawVariant.logo (RawProductInstance.variant raw))).
Proof.
  apply (proj1 (preloading_fails_when_one_logo_fails
                  Sample.browser_one_logo_fails emptyHeap Sample.response
                  Sample.catalog eq_refl eq_refl eq_refl)).
  exists 1, Sample.php, 5. split; reflexivity.
Defined.

End PreloadClaims.

(** * Further properties *)

(** ** More about the sort *)

Section ArraySortMore.
Context {A : Type}.

Lemma Array_sort_ext (c1 c2 : A -> A -> comparison) l :
  (forall a b, c1 a b = c2 a b) -> Array_sort c1 l = Array_sort c2 l.
Proof.
  intros Hc. induction l as [|x l IH]; simpl; [reflexivity|].
  rewrite IH. generalize (Array_sort c2 l). intros s.
  induction s as [|y s IHs]; simpl; [reflexivity|].
  now rewrite Hc, IHs.
Qed.

(** Sorting a list that is in order and has one more element at its end
    puts that element somewhere in the list and moves nothing else. *)
Lemma Array_sort_snoc (compareFn : A -> A -> comparison) l f :
  Sorted (in_order compareFn) l ->
  exists l1 l2,
    l = l1 ++ l2 /\ Array_sort compareFn (l ++ [f]) = l1 ++ f :: l2.
Proof.
  induction 1 as [|x l Hl IH Hx].
  - now exists [], [].
  - destruct IH as (l1 & l2 & -> & Hsort). simpl. rewrite Hsort.
    destruct l1 as [|y l1]; simpl in *.
    + destruct (compareFn x f) eqn:E.
      * now exists [x], l2.
      * now exists [x], l2.
      * exists [], (x :: l2). split; [reflexivity|]. simpl. f_equal.
        now apply sort_insert_HdRel.
    + apply HdRel_inv in Hx. unfold in_order in Hx.
      exists (x :: y :: l1), l2. split; [reflexivity|].
      now destruct (compareFn x y).
Qed.

End ArraySortMore.

(** ** More about the selection *)

Section SelectionMore.
Import InvoicingSimulator.
Variable productFlavorComparator : Heap -> ref -> ref -> comparison.

(** X1.  The list of the selectable flavors holds exactly the flavors of
    the selected instance that are not selected yet; it is empty as long
    as no instance is selected or when the selected instance has no array
    of flavors; it is never longer than the array of the instance and,
    for a comparator that never answers [Gt] both ways, it is in order. *)
Theorem selectable_flavors_are_the_unselected_ones (h : Heap) (st : State) :
  (forall g,
     g ∈ items (renderProductFlavors productFlavorComparator h st)
     <-> g ∈ selectedInstanceFlavors h st /\ g ∉ selectedFlavors st) /\
  (selectedProductInstance st = None ->
   items (renderProductFlavors productFlavorComparator h st) = []) /\
  (forall productInstance,
     selectedProductInstance st = Some productInstance ->
     ProductInstanceModel.flavors (instanceAt h productInstance) = None ->
     items (renderProductFlavors productFlavorComparator h st) = []) /\
  length (items (renderProductFlavors productFlavorComparator h st))
    <= length (selectedInstanceFlavors h st) /\
  ((forall a b, productFlavorComparator h a b = Gt ->
                productFlavorComparator h b a <> Gt) ->
   Sorted (in_order (productFlavorComparator h))
     (items (renderProductFlavors productFlavorComparator h st))).
Proof.
  unfold renderProductFlavors. cbn [items].
  split.
  { intros g. rewrite Array_sort_elem_of, list_elem_of_filter. tauto. }
  split.
  { intros Hnone. unfold selectedInstanceFlavors. now rewrite Hnone. }
  split.
  { intros pi Hpi Hfl. unfold selectedInstanceFlavors.
    rewrite Hpi. simpl. now rewrite Hfl. }
  split.
  { rewrite Array_sort_length. apply length_filter. }
  intros Htotal. now apply Array_sort_Sorted.
Qed.

(** X2.  Adding a flavor that is not selected to a cart that is in order,
    and removing it again, gives back the state as it was: the same
    selected instance and the same cart, in the same order. *)
Theorem addFlavor_then_removeFlavor_restores
    (h : Heap) (f : ref) (st : State) :
  f ∉ selectedFlavors st ->
  Sorted (in_order (productFlavorComparator h)) (selectedFlavors st) ->
  onUnselectProductFlavor productFlavorComparator h f
    (onSelectProductFlavor productFlavorComparator h f st)
  = st.
Proof.
  intros Hf Hsorted. destruct st as [pi l]. cbn [selectedFlavors] in *.
  unfold onUnselectProductFlavor, onSelectProductFlavor, setSelectedFlavors,
    setState. cbn.
  destruct (Array_sort_snoc (productFlavorComparator h) l f Hsorted)
    as (l1 & l2 & -> & ->).
  apply not_elem_of_app in Hf as [Hf1 Hf2].
  rewrite filter_app, filter_cons_False by (intros Hne; now apply Hne).
  rewrite !filter_not_elem_of_id by assumption.
  now rewrite Array_sort_Sorted_id.
Qed.

End SelectionMore.

Section SelectionMoreOnTheCatalog.
Import InvoicingSimulator productInstanceComparators.

Lemma addFlavor_then_removeFlavor_restores_witness :
  onUnselectProductFlavor productFlavorComparator
    Sample.heap 1%positive
    (onSelectProductFlavor productFlavorComparator
       Sample.heap 1%positive Sample.cart)
  = Sample.cart.
Proof.
  apply addFlavor_then_removeFlavor_restores.
  - vm_compute. intros H. inversion H as [|? ? ? H']; inversion H'.
  - vm_compute. repeat constructor.
Defined.

End SelectionMoreOnTheCatalog.

Section ThroughTheListsFacts.
Import InvoicingSimulator.
Variable productFlavorComparator : Heap -> ref -> ref -> comparison.
Variable productInstanceComparator : Heap -> ref -> ref -> comparison.

Lemma elem_of_selectedInstanceFlavors h st g :
  g ∈ selectedInstanceFlavors h st ->
  exists productInstance flavors,
    selectedProductInstance st = Some productInstance /\
    ProductInstanceModel.flavors (instanceAt h productInstance)
    = Some flavors /\
    g ∈ flavors.
Proof.
  unfold selectedInstanceFlavors.
  destruct (selectedProductInstance st) as [pi|]; simpl.
  - destruct (ProductInstanceModel.flavors (instanceAt h pi)) as [fl|] eqn:E;
      simpl.
    + intros Hg. now exists pi, fl.
    + intros Hg. now apply elem_of_nil in Hg.
  - intros Hg. now apply elem_of_nil in Hg.
Qed.

(** X3.  As long as flavors are added from the list of the selectable
    flavors, the cart never holds a flavor twice, and every flavor it
    holds is a flavor of some instance: of the instance that was selected
    when the flavor was added, whatever instance is selected since. *)
Theorem cart_through_the_lists_has_no_duplicates (h : Heap) (st : State) :
  reachable_through_the_lists productFlavorComparator h st ->
  NoDup (selectedFlavors st) /\
  (forall g, g ∈ selectedFlavors st ->
     exists productInstance flavors,
       ProductInstanceModel.flavors (instanceAt h productInstance)
       = Some flavors /\
       g ∈ flavors).
Proof.
  induction 1 as [|pi st Hst [IHnodup IHown]
                  |f st Hst [IHnodup IHown] Hf
                  |f st Hst [IHnodup IHown]].
  - split; [constructor|]. intros g Hg. now apply elem_of_nil in Hg.
  - now split.
  - rewrite selectedFlavors_onSelect.
    unfold renderProductFlavors in Hf. cbn [items] in Hf.
    rewrite Array_sort_elem_of, list_elem_of_filter in Hf.
    destruct Hf as [Hnew Hin]. split.
    + rewrite <- (Array_sort_Permutation (productFlavorComparator h)).
      apply NoDup_app. split; [exact IHnodup|]. split.
      * intros x Hx Hxf. apply list_elem_of_singleton in Hxf. congruence.
      * apply NoDup_singleton.
    + intros g Hg. rewrite Array_sort_elem_of, elem_of_app in Hg.
      destruct Hg as [Hg|Hg]; [now apply IHown|].
      apply list_elem_of_singleton in Hg as ->.
      destruct (elem_of_selectedInstanceFlavors _ _ _ Hin)
        as (pi & fl & _ & Hfl & Hffl).
      now exists pi, fl.
  - rewrite selectedFlavors_onUnselect. split.
    + rewrite <- (Array_sort_Permutation (productFlavorComparator h)).
      now apply NoDup_filter.
    + intros g Hg. rewrite Array_sort_elem_of, list_elem_of_filter in Hg.
      now apply IHown.
Qed.

Lemma render_fst h props st :
  fst (render productFlavorComparator productInstanceComparator h props st)
  = mkHeap (instanceObjs h) (flavorObjs h)
      (<[productInstances props :=
           Array_sort (productInstanceComparator h)
                      (arrayAt h (productInstances props))]> (arrayObjs h)).
Proof. reflexivity. Qed.

(** X4.  Rendering again changes nothing: for comparators that read the
    objects only, and an instance comparator that never answers [Gt] both
    ways, a second render leaves the heap as the first render left it
    and draws the same view. *)
Theorem render_twice_is_render_once (h : Heap) (props : Props) (st : State) :
  reads_objects_only productFlavorComparator ->
  reads_objects_only productInstanceComparator ->
  (forall a b, productInstanceComparator h a b = Gt ->
               productInstanceComparator h b a <> Gt) ->
  render productFlavorComparator productInstanceComparator
    (fst (render productFlavorComparator productInstanceComparator
            h props st))
    props st
  = render productFlavorComparator productInstanceComparator h props st.
Proof.
  intros HF HI Htotal. rewrite render_fst.
  set (sorted := Array_sort (productInstanceComparator h)
                            (arrayAt h (productInstances props))).
  set (h1 := mkHeap _ _ _).
  assert (Hagain : Array_sort (productInstanceComparator h1)
                     (arrayAt h1 (productInstances props)) = sorted).
  { unfold arrayAt at 1. cbn [arrayObjs h1].
    rewrite lookup_total_insert_eq.
    rewrite (Array_sort_ext (productInstanceComparator h1)
                            (productInstanceComparator h))
      by (intros a b; now apply HI).
    apply Array_sort_Sorted_id. now apply Array_sort_Sorted. }
  assert (Hflavors : forall h2,
             instanceObjs h2 = instanceObjs h ->
             flavorObjs h2 = flavorObjs h ->
             renderProductFlavors productFlavorComparator h2 st
             = renderProductFlavors productFlavorComparator h st).
  { intros h2 Hi Hf. unfold renderProductFlavors, selectedInstanceFlavors,
      instanceAt. rewrite Hi. f_equal.
    apply Array_sort_ext. intros a b. now apply HF. }
  unfold render, renderProductInstances. rewrite Hagain. fold sorted.
  rewrite !Hflavors by reflexivity.
  change (renderHeader h1 st) with (renderHeader h st).
  f_equal.
  - unfold h1. cbn [instanceObjs flavorObjs arrayObjs].
    now rewrite insert_insert_eq.
  - f_equal. symmetry. now apply Hflavors.
Qed.

End ThroughTheListsFacts.

Section ThroughTheListsOnTheCatalog.
Import InvoicingSimulator productInstanceComparators.

Lemma productFlavorComparator_reads_objects_only :
  reads_objects_only productFlavorComparator.
Proof.
  intros h h' Hi Hf a b.
  unfold productFlavorComparator, flavorPrice, flavorName, flavorInstanceId,
    flavorAt, instanceAt.
  now rewrite Hi, Hf.
Defined.

Lemma productInstanceComparator_reads_objects_only :
  reads_objects_only productInstanceComparator.
Proof.
  intros h h' Hi Hf a b. unfold productInstanceComparator, instanceAt.
  now rewrite Hi.
Defined.

Lemma cart_M_then_S_through_the_lists :
  reachable_through_the_lists productFlavorComparator Sample.heap
    Sample.cart_M_then_S.
Proof.
  apply (through_add productFlavorComparator Sample.heap 2%positive
           (onSelectProductFlavor productFlavorComparator Sample.heap
              1%positive (onSelectProductInstance 1%positive state))).
  - apply (through_add productFlavorComparator Sample.heap 1%positive
             (onSelectProductInstance 1%positive state)).
    + apply through_select, through_initial.
    + vm_compute. repeat constructor.
  - vm_compute. repeat constructor.
Defined.

Lemma cart_through_the_lists_has_no_duplicates_witness :
  NoDup (selectedFlavors Sample.cart_M_then_S) /\
  (forall g, g ∈ selectedFlavors Sample.cart_M_then_S ->
     exists productInstance flavors,
       ProductInstanceModel.flavors (instanceAt Sample.heap productInstance)
       = Some flavors /\
       g ∈ flavors).
Proof.
  exact (cart_through_the_lists_has_no_duplicates productFlavorComparator
           Sample.heap Sample.cart_M_then_S cart_M_then_S_through_the_lists).
Defined.

Lemma render_twice_is_render_once_witness :
  render productFlavorComparator productInstanceComparator
    (fst (render productFlavorComparator productInstanceComparator
            Sample.heap Sample.props Sample.cart))
    Sample.props Sample.cart
  = render productFlavorComparator productInstanceComparator
      Sample.heap Sample.props Sample.cart.
Proof.
  apply render_twice_is_render_once.
  - exact productFlavorComparator_reads_objects_only.
  - exact productInstanceComparator_reads_objects_only.
  - apply productInstanceComparator_total.
Defined.

End ThroughTheListsOnTheCatalog.

(** ** More about promises *)

Section PromiseMore.
Context {A : Type}.

Lemma all_values_Some (promises : list (Settling A)) values :
  all_values promises = Some values ->
  length values = length promises /\
  forall k p, promises !! k = Some p -> exists t v, p = fulfils t v.
Proof.
  revert values. induction promises as [|p promises IH]; intros values Hv.
  - injection Hv as <-. split; [reflexivity|]. intros [|k] p Hp; discriminate.
  - simpl in Hv. destruct p as [t v| |]; try discriminate.
    destruct (all_values promises) as [vs|] eqn:Hvs; [|discriminate].
    injection Hv as <-. destruct (IH vs eq_refl) as [Hlen Hall].
    split; [simpl; now rewrite Hlen|].
    intros [|k] p Hp; simpl in Hp.
    + injection Hp as <-. now exists t, v.
    + now apply (Hall k).
Qed.

(** [Promise.all] is fulfilled only when every promise is. *)
Lemma Promise_all_Fulfilled_inv (promises : list (Settling A)) values :
  Promise_all promises = Fulfilled values ->
  forall k p, promises !! k = Some p -> exists t v, p = fulfils t v.
Proof.
  unfold Promise_all.
  destruct (first_rejection promises) as [[t e]|]; [discriminate|].
  destruct (all_values promises) as [vs|] eqn:Hvs; [|discriminate].
  intros _. now apply (all_values_Some promises vs).
Qed.

(** [Promise.all] stays pending when no promise rejects and one never
    settles. *)
Lemma Promise_all_pending (promises : list (Settling A)) k :
  (forall j u r, promises !! j <> Some (rejects u r)) ->
  promises !! k = Some never ->
  Promise_all promises = Pending.
Proof.
  intros Hnone Hk. unfold Promise_all.
  destruct (first_rejection promises) as [[t e]|] eqn:Hf.
  - destruct (first_rejection_Some _ _ _ Hf) as [[j Hj] _].
    now destruct (Hnone j t e).
  - destruct (all_values promises) as [vs|] eqn:Hvs; [|reflexivity].
    destruct (all_values_Some _ _ Hvs) as [_ Hall].
    destruct (Hall k _ Hk) as (? & ? & ?). discriminate.
Qed.

End PromiseMore.

(** ** More about the conversion *)

Section ConversionMore.
Import ProductInstancesService.

Lemma converted_instance_mono raw r h h' :
  converted_instance raw r h -> heap_extends h h' ->
  converted_instance raw r h'.
Proof.
  intros (fl & Hobj & Hfl) (Hi & Hf & _). exists fl.
  split; [exact (lookup_weaken _ _ _ _ Hobj Hi)|].
  destruct (RawProductInstance.flavors raw) as [rawFlavors|]; [|exact Hfl].
  destruct Hfl as (refs & -> & Hrefs). exists refs. split; [reflexivity|].
  eapply Forall2_impl; [exact Hrefs|].
  intros rf f Hobjf. exact (lookup_weaken _ _ _ _ Hobjf Hf).
Qed.

Lemma Array_map_converter_full raws h :
  exists result h',
    Array_map _productInstanceConverter raws h = (Fulfilled result, h') /\
    heap_extends h h' /\
    Forall2 (fun raw r => converted_instance raw r h') raws result.
Proof.
  apply Array_map_Forall2.
  - intros raw h0.
    destruct (_productInstanceConverter_spec raw h0)
      as (r & h' & fl & Hconv & Hext & Hobj & Hfl).
    exists r, h'. split; [exact Hconv|]. split; [exact Hext|].
    now exists fl.
  - intros raw r h0 h0'. apply converted_instance_mono.
Qed.

(** The instance object of a conversion is a new one. *)
Lemma _productInstanceConverter_fresh raw h productInstance h' :
  _productInstanceConverter raw h = (Fulfilled productInstance, h') ->
  instanceObjs h !! productInstance = None.
Proof.
  unfold _productInstanceConverter, async_bind, new_instance.
  destruct (RawProductInstance.flavors raw) as [rawFlavors|].
  - destruct (Array_map _ rawFlavors _) as [[refs|e|] h2];
      cbn; intros Heq; try discriminate.
    injection Heq as <- _. apply not_elem_of_dom, is_fresh.
  - cbn. intros Heq. injection Heq as <- _.
    apply not_elem_of_dom, is_fresh.
Qed.

(** The instance objects of the conversion of a catalog are new ones, and
    pairwise distinct. *)
Lemma Array_map_converter_fresh raws h result h' :
  Array_map _productInstanceConverter raws h = (Fulfilled result, h') ->
  NoDup result /\
  forall r, r ∈ result -> instanceObjs h !! r = None.
Proof.
  revert h result h'. induction raws as [|raw raws IH]; intros h result h'.
  - intros Heq. injection Heq as <- _. split; [constructor|].
    intros r Hr. now apply elem_of_nil in Hr.
  - simpl. unfold async_bind at 1.
    destruct (_productInstanceConverter_spec raw h)
      as (r & h1 & fl & Hconv & (Hsub & _) & Hobj & _).
    rewrite Hconv. unfold async_bind at 1.
    destruct (Array_map _productInstanceConverter raws h1)
      as [[rest|e|] h2] eqn:Hrest; cbn; intros Heq; try discriminate.
    injection Heq as <- <-.
    destruct (IH h1 rest h2 Hrest) as [Hnodup Hfresh].
    pose proof (_productInstanceConverter_fresh _ _ _ _ Hconv) as Hr.
    split.
    + constructor; [|exact Hnodup]. intros Hin.
      specialize (Hfresh r Hin). congruence.
    + intros r' Hr'. apply elem_of_cons in Hr' as [->|Hr']; [exact Hr|].
      specialize (Hfresh r' Hr').
      exact (lookup_weaken_None _ _ _ Hfresh Hsub).
Qed.

End ConversionMore.

(** ** More about the catalog service *)

Section ServiceMore.
Import ProductInstancesService.

(** Without preloading, the call is the conversion of the records. *)
Lemma getProductInstances_without_preloading browser h response raws :
  fetch browser endpoint = Fulfilled response ->
  ok response = true ->
  json response = Fulfilled (JArray raws) ->
  getProductInstances browser false h
  = Array_map _productInstanceConverter raws h.
Proof.
  intros Hfetch Hok Hjson.
  destruct (Array_map_converter raws h) as (result & h' & Hmap & _).
  unfold getProductInstances, async_bind.
  rewrite (_fetchProductInstances_ok _ _ _ _ Hfetch Hok Hjson).
  cbn [truthy]. now rewrite Hmap.
Qed.

(** X5.  When the fetch itself fails (the network is down, say), the call
    is rejected with an error whose message holds the message of the
    failure between "We could not fetch product instances." and "Please
    retry later."; nothing is allocated, with or without preloading. *)
Theorem transport_failure_is_reported
    (browser : Browser) (preloadProductLogos : bool) (h : Heap)
    (e : Thrown) :
  fetch browser endpoint = Rejected e ->
  getProductInstances browser preloadProductLogos h
  = (Rejected
       (Error ("We could not fetch product instances. "
               +:+ message_of e +:+ " Please retry later.")),
     h).
Proof.
  intros Hfetch.
  unfold getProductInstances, _fetchProductInstances, async_bind, try_catch,
    await.
  now rewrite Hfetch.
Qed.

Lemma transport_failure_is_reported_witness :
  getProductInstances
    (mkBrowser (fun _ => Rejected (TypeError "Failed to fetch"))
               (fun _ _ => noevent))
    true emptyHeap
  = (Rejected
       (Error
          "We could not fetch product instances. Failed to fetch Please retry later."),
     emptyHeap).
Proof.
  exact (transport_failure_is_reported
           (mkBrowser (fun _ => Rejected (TypeError "Failed to fetch"))
                      (fun _ _ => noevent))
           true emptyHeap (TypeError "Failed to fetch") eq_refl).
Defined.

(** X6.  When the response is successful and reading its body as JSON
    fails, the call is rejected with that very failure: it is not wrapped
    into the error of the fetch, and nothing is allocated. *)
Theorem json_failure_is_not_wrapped
    (browser : Browser) (preloadProductLogos : bool) (h : Heap)
    (response : Response) (e : Thrown) :
  fetch browser endpoint = Fulfilled response ->
  ok response = true ->
  json response = Rejected e ->
  getProductInstances browser preloadProductLogos h = (Rejected e, h).
Proof.
  intros Hfetch Hok Hjson.
  unfold getProductInstances, _fetchProductInstances, async_bind, try_catch,
    await.
  now rewrite Hfetch, Hok, Hjson.
Qed.

Lemma json_failure_is_not_wrapped_witness :
  getProductInstances
    (mkBrowser
       (fun _ =>
          Fulfilled
            (mkResponse true 200
               (Rejected (SyntaxError "Unexpected end of JSON input"))))
       (fun _ _ => noevent))
    false emptyHeap
  = (Rejected (SyntaxError "Unexpected end of JSON input"), emptyHeap).
Proof.
  exact (json_failure_is_not_wrapped
           (mkBrowser
              (fun _ =>
                 Fulfilled
                   (mkResponse true 200
                      (Rejected (SyntaxError "Unexpected end of JSON input"))))
              (fun _ _ => noevent))
           false emptyHeap
           (mkResponse true 200
              (Rejected (SyntaxError "Unexpected end of JSON input")))
           (SyntaxError "Unexpected end of JSON input")
           eq_refl eq_refl eq_refl).
Defined.

(** X7.  With preloading, when no image fails and one image neither loads
    nor fails, the call never settles: the service sets no deadline. *)
Theorem preloading_waits_for_every_logo
    (browser : Browser) (h : Heap) (response : Response)
    (raws : list RawProductInstance.t) :
  fetch browser endpoint = Fulfilled response ->
  ok response = true ->
  json response = Fulfilled (JArray raws) ->
  (forall k raw t,
     raws !! k = Some raw ->
     Image browser k (RawVariant.logo (RawProductInstance.variant raw))
     <> onerror t) ->
  (exists k raw,
     raws !! k = Some raw /\
     Image browser k (RawVariant.logo (RawProductInstance.variant raw))
     = noevent) ->
  fst (getProductInstances browser true h) = Pending.
Proof.
  intros Hfetch Hok Hjson Hnofail (k & raw & Hk & Hnever).
  destruct (getProductInstances_converted browser h response raws
              Hfetch Hok Hjson) as (result & h' & Hconv & _ & Htrue).
  rewrite Htrue. cbn [fst].
  rewrite (Promise_all_pending _ k); [reflexivity| |].
  - intros j u r Hj. rewrite (preloads_lookup _ raws) in Hj by exact Hconv.
    destruct (raws !! j) as [rawj|] eqn:Hrawj; [|discriminate].
    simpl in Hj. injection Hj as Hj.
    apply _preloadImage_rejects in Hj as [Hj _].
    exact (Hnofail j rawj u Hrawj Hj).
  - rewrite (preloads_lookup _ raws) by exact Hconv. rewrite Hk. simpl.
    unfold _preloadImage. now rewrite Hnever.
Qed.

Lemma preloading_waits_for_every_logo_witness :
  fst (getProductInstances
         (mkBrowser (fun _ => Fulfilled Sample.response)
                    (fun n _ => if (n =? 1)%nat then noevent else onload n))
         true emptyHeap)
  = Pending.
Proof.
  apply (preloading_waits_for_every_logo
           (mkBrowser (fun _ => Fulfilled Sample.response)
                      (fun n _ => if (n =? 1)%nat then noevent else onload n))
           emptyHeap Sample.response Sample.catalog eq_refl eq_refl eq_refl).
  - intros k raw t _. cbn [Image]. now destruct (k =? 1)%nat.
  - exists 1, Sample.php. split; reflexivity.
Defined.

End ServiceMore.

Section CatalogMore.
Import ProductInstancesService InvoicingSimulator.

(** X8.  For a successful response whose body is an array of records, the
    call without preloading gives one instance object per record, in the
    order of the records: each holds the fields of its record and the
    converted flavors of the record, which point back to it.  The
    instance objects are new (none was in the heap before the call) and
    pairwise distinct. *)
Theorem catalog_is_converted_in_order
    (browser : Browser) (h : Heap) (response : Response)
    (raws : list RawProductInstance.t) :
  fetch browser endpoint = Fulfilled response ->
  ok response = true ->
  json response = Fulfilled (JArray raws) ->
  exists result,
    fst (getProductInstances browser false h) = Fulfilled result /\
    Forall2
      (fun raw r =>
         converted_instance raw r (snd (getProductInstances browser false h)))
      raws result /\
    NoDup result /\
    (forall r, r ∈ result -> instanceObjs h !! r = None).
Proof.
  intros Hfetch Hok Hjson.
  rewrite (getProductInstances_without_preloading _ _ _ _ Hfetch Hok Hjson).
  destruct (Array_map_converter_full raws h)
    as (result & h' & Hmap & _ & Hconv).
  destruct (Array_map_converter_fresh _ _ _ _ Hmap) as [Hnodup Hfresh].
  exists result. rewrite Hmap. cbn [fst snd]. now repeat split.
Qed.

Lemma catalog_is_converted_in_order_witness :
  exists result,
    fst (getProductInstances Sample.browser false emptyHeap)
    = Fulfilled result /\
    Forall2
      (fun raw r =>
         converted_instance raw r
           (snd (getProductInstances Sample.browser false emptyHeap)))
      Sample.catalog result /\
    NoDup result /\
    (forall r, r ∈ result -> instanceObjs emptyHeap !! r = None).
Proof.
  exact (catalog_is_converted_in_order Sample.browser emptyHeap
           Sample.response Sample.catalog eq_refl eq_refl eq_refl).
Defined.

(** X9.  However the call ends, it leaves every instance object, every
    flavor object and every array that was in the heap as it was: it only
    adds objects. *)
Theorem getProductInstances_only_allocates
    (browser : Browser) (preloadProductLogos : bool) (h : Heap) :
  heap_extends h (snd (getProductInstances browser preloadProductLogos h)).
Proof.
  unfold getProductInstances, _fetchProductInstances, async_bind, try_catch,
    await, async_throw, async_return.
  destruct (fetch browser endpoint) as [response|e|];
    try apply heap_extends_refl.
  destruct (ok response); cbn [negb]; try apply heap_extends_refl.
  destruct (json response) as [body|e|]; try apply heap_extends_refl.
  destruct (if truthy body then body else JArray [])
    as [| | | |raws|]; try apply heap_extends_refl.
  destruct (Array_map_converter raws h) as (result & h' & Hmap & Hext & _).
  rewrite Hmap.
  destruct preloadProductLogos; [|exact Hext].
  now destruct (Promise_all _).
Qed.

(** X10.  The call is fulfilled only for a successful response whose body
    could be read and is a falsy value or an array of records; it then
    gives as many instances as there are records, and with preloading
    every logo has loaded. *)
Theorem fulfilled_only_for_a_successful_response
    (browser : Browser) (preloadProductLogos : bool) (h : Heap)
    (result : list ref) :
  fst (getProductInstances browser preloadProductLogos h) = Fulfilled result ->
  exists response body raws,
    fetch browser endpoint = Fulfilled response /\
    ok response = true /\
    json response = Fulfilled body /\
    (body = JArray raws \/ (truthy body = false /\ raws = [])) /\
    length result = length raws /\
    (preloadProductLogos = true ->
     forall k raw,
       raws !! k = Some raw ->
       exists t,
         Image browser k (RawVariant.logo (RawProductInstance.variant raw))
         = onload t).
Proof.
  unfold getProductInstances, _fetchProductInstances, async_bind, try_catch,
    await, async_throw, async_return.
  destruct (fetch browser endpoint) as [response|e|];
    try (cbn; discriminate).
  destruct (ok response) eqn:Hok; cbn [negb]; try (cbn; discriminate).
  destruct (json response) as [body|e|] eqn:Hjson; try (cbn; discriminate).
  destruct (if truthy body then body else JArray [])
    as [| | | |raws|] eqn:Hbody; try (cbn; discriminate).
  assert (Hraws : body = JArray raws \/ (truthy body = false /\ raws = [])).
  { destruct (truthy body); [now left|]. right.
    split; [reflexivity|]. congruence. }
  destruct (Array_map_converter raws h) as (result0 & h' & Hmap & _ & Hconv).
  rewrite Hmap. intros Hres.
  exists response, body, raws. repeat (split; [reflexivity || assumption|]).
  destruct preloadProductLogos.
  - destruct (Promise_all _) as [values|e|] eqn:Hall; try discriminate.
    cbn in Hres. injection Hres as <-.
    split; [symmetry; exact (Forall2_length _ _ _ Hconv)|].
    intros _ k raw Hk.
    destruct (Promise_all_Fulfilled_inv _ _ Hall k
                (_preloadImage browser k
                   (RawVariant.logo (RawProductInstance.variant raw))))
      as (t & v & Hp).
    { rewrite (preloads_lookup _ raws) by exact Hconv. now rewrite Hk. }
    unfold _preloadImage in Hp.
    destruct (Image browser k _) as [t'| |]; try discriminate.
    now exists t'.
  - cbn in Hres. injection Hres as <-.
    split; [symmetry; exact (Forall2_length _ _ _ Hconv)|].
    discriminate.
Qed.

Lemma fulfilled_only_for_a_successful_response_witness :
  exists response body raws,
    fetch Sample.browser endpoint = Fulfilled response /\
    ok response = true /\
    json response = Fulfilled body /\
    (body = JArray raws \/ (truthy body = false /\ raws = [])) /\
    length [1%positive; 2%positive; 3%positive] = length raws /\
    (true = true ->
     forall k raw,
       raws !! k = Some raw ->
       exists t,
         Image Sample.browser k
               (RawVariant.logo (RawProductInstance.variant raw))
         = onload t).
Proof.
  apply (fulfilled_only_for_a_successful_response Sample.browser true
           emptyHeap [1%positive; 2%positive; 3%positive]).
  vm_compute. reflexivity.
Defined.

(** X11.  A record without [flavors] is converted into an instance whose
    [flavors] is undefined, and no flavor object is allocated; once such
    an instance is selected, the list of the selectable flavors is empty,
    whatever the cart holds. *)
Theorem record_without_flavors_has_nothing_to_select
    (productFlavorComparator : Heap -> ref -> ref -> comparison)
    (raw : RawProductInstance.t) (h : Heap) :
  RawProductInstance.flavors raw = None ->
  exists productInstance,
    fst (_productInstanceConverter raw h) = Fulfilled productInstance /\
    ProductInstanceModel.flavors
      (instanceAt (snd (_productInstanceConverter raw h)) productInstance)
    = None /\
    flavorObjs (snd (_productInstanceConverter raw h)) = flavorObjs h /\
    forall selected,
      items (renderProductFlavors productFlavorComparator
               (snd (_productInstanceConverter raw h))
               (mkState (Some productInstance) selected))
      = [].
Proof.
  intros Hnone.
  destruct (_productInstanceConverter_spec raw h)
    as (pi & h' & fl & Hconv & _ & Hobj & Hfl).
  rewrite Hnone in Hfl. subst fl.
  assert (Hflavors : flavorObjs h' = flavorObjs h).
  { revert Hconv. unfold _productInstanceConverter, async_bind, new_instance.
    rewrite Hnone. cbn. intros Heq. now injection Heq as _ <-. }
  exists pi. rewrite Hconv. cbn [fst snd].
  assert (Hundefined : ProductInstanceModel.flavors (instanceAt h' pi) = None).
  { unfold instanceAt. now rewrite (lookup_total_correct _ _ _ Hobj). }
  split; [reflexivity|]. split; [exact Hundefined|].
  split; [exact Hflavors|].
  intros selected. unfold renderProductFlavors, selectedInstanceFlavors.
  cbn [items selectedProductInstance]. simpl. now rewrite Hundefined.
Qed.

Lemma record_without_flavors_has_nothing_to_select_witness :
  exists productInstance,
    fst (_productInstanceConverter Sample.php emptyHeap)
    = Fulfilled productInstance /\
    ProductInstanceModel.flavors
      (instanceAt (snd (_productInstanceConverter Sample.php emptyHeap))
                  productInstance)
    = None /\
    flavorObjs (snd (_productInstanceConverter Sample.php emptyHeap))
    = flavorObjs emptyHeap /\
    forall selected,
      items (renderProductFlavors
               productInstanceComparators.productFlavorComparator
               (snd (_productInstanceConverter Sample.php emptyHeap))
               (mkState (Some productInstance) selected))
      = [].
Proof.
  exact (record_without_flavors_has_nothing_to_select
           productInstanceComparators.productFlavorComparator
           Sample.php emptyHeap eq_refl).
Defined.

End CatalogMore.

(** ** Identities within one fetch *)

Section IdentityFacts.
Import ProductInstancesService InvoicingSimulator.

(** Where a flavor of a converted catalog comes from, and its identity. *)
Lemma catalog_flavor_origin raws result h' f :
  Forall2 (fun raw r => converted_instance raw r h') raws result ->
  catalog_flavor h' result f ->
  exists k raw productInstance rawFlavors j rawProductFlavor refs,
    raws !! k = Some raw /\
    result !! k = Some productInstance /\
    RawProductInstance.flavors raw = Some rawFlavors /\
    rawFlavors !! j = Some rawProductFlavor /\
    ProductInstanceModel.flavors (instanceAt h' productInstance)
    = Some refs /\
    refs !! j = Some f /\
    flavorIdentity h' f
    = (RawVariant.id (RawProductInstance.variant raw),
       RawProductFlavor.name rawProductFlavor).
Proof.
  intros Hconv (p & fl & Hp & Hfl & Hf).
  apply list_elem_of_lookup in Hp as [k Hk].
  destruct (Forall2_lookup_r _ _ _ _ _ Hconv Hk)
    as (raw & Hraw & fl' & Hobj & Hflavors).
  pose proof Hfl as Hfl0.
  unfold instanceAt in Hfl. rewrite (lookup_total_correct _ _ _ Hobj) in Hfl.
  cbn in Hfl. subst fl'.
  destruct (RawProductInstance.flavors raw) as [rawFlavors|] eqn:Hrf;
    [|discriminate].
  destruct Hflavors as (refs & Hrefs & Hall). injection Hrefs as <-.
  apply list_elem_of_lookup in Hf as [j Hj].
  destruct (Forall2_lookup_r _ _ _ _ _ Hall Hj) as (rf & Hrfj & Hobjf).
  exists k, raw, p, rawFlavors, j, rf, fl.
  split; [exact Hraw|]. split; [exact Hk|]. split; [exact Hrf|].
  split; [exact Hrfj|]. split; [exact Hfl0|]. split; [exact Hj|].
  unfold flavorIdentity, flavorInstanceId, flavorName, flavorAt, instanceAt.
  rewrite (lookup_total_correct _ _ _ Hobjf). cbn.
  now rewrite (lookup_total_correct _ _ _ Hobj).
Qed.

(** In one conversion of a well-formed catalog, two flavor objects with
    the same identity are the same object. *)
Lemma catalog_flavor_identity_inj raws result h' f1 f2 :
  well_formed_catalog raws ->
  Forall2 (fun raw r => converted_instance raw r h') raws result ->
  catalog_flavor h' result f1 ->
  catalog_flavor h' result f2 ->
  flavorIdentity h' f1 = flavorIdentity h' f2 ->
  f1 = f2.
Proof.
  intros [Hids Hnames] Hconv Hf1 Hf2 Hid.
  destruct (catalog_flavor_origin _ _ _ _ Hconv Hf1)
    as (k1 & raw1 & p1 & rfs1 & j1 & rf1 & refs1
        & Hk1 & Hp1 & Hrfs1 & Hj1 & Hfl1 & Hr1 & Hid1).
  destruct (catalog_flavor_origin _ _ _ _ Hconv Hf2)
    as (k2 & raw2 & p2 & rfs2 & j2 & rf2 & refs2
        & Hk2 & Hp2 & Hrfs2 & Hj2 & Hfl2 & Hr2 & Hid2).
  rewrite Hid1, Hid2 in Hid. injection Hid as Hid Hname.
  assert (k1 = k2) as <-.
  { apply (NoDup_lookup _ k1 k2
             (RawVariant.id (RawProductInstance.variant raw1)) Hids);
      rewrite list_lookup_fmap.
    - now rewrite Hk1.
    - rewrite Hk2. simpl. now rewrite Hid. }
  rewrite Hk1 in Hk2. injection Hk2 as <-.
  rewrite Hp1 in Hp2. injection Hp2 as <-.
  rewrite Hrfs1 in Hrfs2. injection Hrfs2 as <-.
  rewrite Hfl1 in Hfl2. injection Hfl2 as <-.
  assert (j1 = j2) as <-.
  { apply (NoDup_lookup _ j1 j2 (RawProductFlavor.name rf1)
             (Hnames raw1 rfs1 (list_elem_of_lookup_2 _ _ _ Hk1) Hrfs1));
      rewrite list_lookup_fmap.
    - now rewrite Hj1.
    - rewrite Hj2. simpl. now rewrite Hname. }
  congruence.
Qed.

End IdentityFacts.

Section IdentityClaims.
Import ProductInstancesService InvoicingSimulator.
Variable productFlavorComparator : Heap -> ref -> ref -> comparison.

(** X12.  In the catalog of one fetch of well-formed records (no two
    records with the same identifier, no two flavors of a record with the
    same name), two flavor objects with the same identity (identifier of
    the owning instance, name) are the same object. *)
Theorem one_fetch_gives_one_object_per_identity
    (browser : Browser) (h : Heap) (response : Response)
    (raws : list RawProductInstance.t) :
  fetch browser endpoint = Fulfilled response ->
  ok response = true ->
  json response = Fulfilled (JArray raws) ->
  well_formed_catalog raws ->
  exists result,
    fst (getProductInstances browser false h) = Fulfilled result /\
    forall f1 f2,
      catalog_flavor (snd (getProductInstances browser false h)) result f1 ->
      catalog_flavor (snd (getProductInstances browser false h)) result f2 ->
      flavorIdentity (snd (getProductInstances browser false h)) f1
      = flavorIdentity (snd (getProductInstances browser false h)) f2 ->
      f1 = f2.
Proof.
  intros Hfetch Hok Hjson Hwf.
  rewrite (getProductInstances_without_preloading _ _ _ _ Hfetch Hok Hjson).
  destruct (Array_map_converter_full raws h)
    as (result & h' & Hmap & _ & Hconv).
  exists result. rewrite Hmap. cbn [fst snd]. split; [reflexivity|].
  intros f1 f2. now apply (catalog_flavor_identity_inj raws).
Qed.

(** X13.  With the flavors of one fetch of well-formed records, the
    component works by identity: removing a flavor removes from the cart
    exactly the flavors that have its identity, and the list of the
    selectable flavors leaves out exactly the flavors of the selected
    instance whose identity is that of a selected flavor. *)
Theorem within_one_fetch_the_cart_works_by_identity
    (browser : Browser) (h : Heap) (response : Response)
    (raws : list RawProductInstance.t) :
  fetch browser endpoint = Fulfilled response ->
  ok response = true ->
  json response = Fulfilled (JArray raws) ->
  well_formed_catalog raws ->
  exists result,
    fst (getProductInstances browser false h) = Fulfilled result /\
    forall st,
      (forall g, g ∈ selectedFlavors st ->
         catalog_flavor (snd (getProductInstances browser false h)) result g) ->
      (forall f g,
         catalog_flavor (snd (getProductInstances browser false h)) result f ->
         (g ∈ selectedFlavors
                (onUnselectProductFlavor productFlavorComparator
                   (snd (getProductInstances browser false h)) f st)
          <-> g ∈ selectedFlavors st /\
              flavorIdentity (snd (getProductInstances browser false h)) g
              <> flavorIdentity (snd (getProductInstances browser false h)) f))
      /\
      (forall productInstance g,
         selectedProductInstance st = Some productInstance ->
         productInstance ∈ result ->
         (g ∈ items (renderProductFlavors productFlavorComparator
                       (snd (getProductInstances browser false h)) st)
          <-> g ∈ selectedInstanceFlavors
                    (snd (getProductInstances browser false h)) st /\
              forall s, s ∈ selectedFlavors st ->
                flavorIdentity (snd (getProductInstances browser false h)) s
                <> flavorIdentity (snd (getProductInstances browser false h)) g)).
Proof.
  intros Hfetch Hok Hjson Hwf.
  rewrite (getProductInstances_without_preloading _ _ _ _ Hfetch Hok Hjson).
  destruct (Array_map_converter_full raws h)
    as (result & h' & Hmap & _ & Hconv).
  exists result. rewrite Hmap. cbn [fst snd]. split; [reflexivity|].
  intros st Hcart.
  assert (Hinj : forall f1 f2,
             catalog_flavor h' result f1 -> catalog_flavor h' result f2 ->
             flavorIdentity h' f1 = flavorIdentity h' f2 -> f1 = f2).
  { intros f1 f2. now apply (catalog_flavor_identity_inj raws). }
  split.
  - intros f g Hf. rewrite selectedFlavors_onUnselect.
    rewrite Array_sort_elem_of, list_elem_of_filter. split.
    + intros [Hne Hg]. split; [exact Hg|]. intros Hid. apply Hne.
      apply Hinj; [now apply Hcart | exact Hf | exact Hid].
    + intros [Hg Hid]. split; [|exact Hg]. intros ->. now apply Hid.
  - intros pi g Hpi Hres. unfold renderProductFlavors. cbn [items].
    rewrite Array_sort_elem_of, list_elem_of_filter. split.
    + intros [Hnot Hg]. split; [exact Hg|]. intros s Hs Hid. apply Hnot.
      assert (Hgc : catalog_flavor h' result g).
      { destruct (elem_of_selectedInstanceFlavors _ _ _ Hg)
          as (pi' & fl & Hpi' & Hfl & Hgfl).
        exists pi', fl. split; [congruence|]. now split. }
      rewrite <- (Hinj s g (Hcart s Hs) Hgc Hid). exact Hs.
    + intros [Hg Hids]. split; [|exact Hg]. intros Hin.
      now apply (Hids g Hin).
Qed.

End IdentityClaims.

Section IdentityOnTheCatalog.
Import ProductInstancesService InvoicingSimulator.

Lemma Sample_catalog_well_formed : well_formed_catalog Sample.catalog.
Proof.
  split.
  - apply (bool_decide_unpack _). vm_compute. exact I.
  - intros raw rawFlavors Hraw Hfl.
    unfold Sample.catalog in Hraw.
    repeat (apply elem_of_cons in Hraw as [->|Hraw]);
      try (now apply elem_of_nil in Hraw);
      try discriminate;
      injection Hfl as <-; apply (bool_decide_unpack _); vm_compute; exact I.
Defined.

Lemma one_fetch_gives_one_object_per_identity_witness :
  exists result,
    fst (getProductInstances Sample.browser false emptyHeap)
    = Fulfilled result /\
    forall f1 f2,
      catalog_flavor (snd (getProductInstances Sample.browser false emptyHeap))
                     result f1 ->
      catalog_flavor (snd (getProductInstances Sample.browser false emptyHeap))
                     result f2 ->
      flavorIdentity (snd (getProductInstances Sample.browser false emptyHeap))
                     f1
      = flavorIdentity
          (snd (getProductInstances Sample.browser false emptyHeap)) f2 ->
      f1 = f2.
Proof.
  exact (one_fetch_gives_one_object_per_identity Sample.browser emptyHeap
           Sample.response Sample.catalog eq_refl eq_refl eq_refl
           Sample_catalog_well_formed).
Defined.

End IdentityOnTheCatalog.

Section IdentityInTheCart.
Import ProductInstancesService InvoicingSimulator.

Lemma within_one_fetch_the_cart_works_by_identity_witness :
  exists result,
    fst (getProductInstances Sample.browser false emptyHeap)
    = Fulfilled result /\
    forall st,
      (forall g, g ∈ selectedFlavors st ->
         catalog_flavor
           (snd (getProductInstances Sample.browser false emptyHeap))
           result g) ->
      (forall f g,
         catalog_flavor
           (snd (getProductInstances Sample.browser false emptyHeap))
           result f ->
         (g ∈ selectedFlavors
                (onUnselectProductFlavor
                   productInstanceComparators.productFlavorComparator
                   (snd (getProductInstances Sample.browser false emptyHeap))
                   f st)
          <-> g ∈ selectedFlavors st /\
              flavorIdentity
                (snd (getProductInstances Sample.browser false emptyHeap)) g
              <> flavorIdentity
                   (snd (getProductInstances Sample.browser false emptyHeap))
                   f))
      /\
      (forall productInstance g,
         selectedProductInstance st = Some productInstance ->
         productInstance ∈ result ->
         (g ∈ items (renderProductFlavors
                       productInstanceComparators.productFlavorComparator
                       (snd (getProductInstances Sample.browser false
                               emptyHeap))
                       st)
          <-> g ∈ selectedInstanceFlavors
                    (snd (getProductInstances Sample.browser false emptyHeap))
                    st /\
              forall s, s ∈ selectedFlavors st ->
                flavorIdentity
                  (snd (getProductInstances Sample.browser false emptyHeap)) s
                <> flavorIdentity
                     (snd (getProductInstances Sample.browser false
                             emptyHeap))
                     g)).
Proof.
  exact (within_one_fetch_the_cart_works_by_identity
           productInstanceComparators.productFlavorComparator
           Sample.browser emptyHeap Sample.response Sample.catalog
           eq_refl eq_refl eq_refl Sample_catalog_well_formed).
Defined.

End IdentityInTheCart.

(** ** What the lists offer after a change of the cart *)

Section OfferedAfterwards.
Import InvoicingSimulator.
Variable productFlavorComparator : Heap -> ref -> ref -> comparison.

(** X14.  A flavor that has just been added is no longer among the
    selectable flavors, and a flavor of the selected instance that has
    just been removed is among them again; both operations leave the
    selected instance and its flavors as they were. *)
Theorem added_is_hidden_and_removed_is_offered
    (h : Heap) (f : ref) (st : State) :
  (f ∉ items (renderProductFlavors productFlavorComparator h
                (onSelectProductFlavor productFlavorComparator h f st))) /\
  (f ∈ selectedInstanceFlavors h st ->
   f ∈ items (renderProductFlavors productFlavorComparator h
                (onUnselectProductFlavor productFlavorComparator h f st))) /\
  selectedInstanceFlavors h
    (onSelectProductFlavor productFlavorComparator h f st)
  = selectedInstanceFlavors h st /\
  selectedInstanceFlavors h
    (onUnselectProductFlavor productFlavorComparator h f st)
  = selectedInstanceFlavors h st.
Proof.
  unfold renderProductFlavors. cbn [items].
  rewrite !Array_sort_elem_of, !list_elem_of_filter.
  rewrite selectedFlavors_onSelect, selectedFlavors_onUnselect.
  rewrite !Array_sort_elem_of, list_elem_of_filter, elem_of_app,
    list_elem_of_singleton.
  split; [intros [Hnot _]; apply Hnot; now right|].
  split; [|now split].
  intros Hf. split; [|exact Hf]. intros [Hne _]. now apply Hne.
Qed.

End OfferedAfterwards.
